(** * Scanning algorithms of the Programming Language Toolkit (PLTK)

    A shallow embedding of [src/scanning_algorithms.hpp] (the header, namespace
    [pltk::detail]) and of the module unit [export module scanning_algorithms]
    (which repeats the four scan operations and adds the two exclusion
    combinators), with the properties stated about them.

    Position model.  The C++ code is generic over an iterator [I] and a
    sentinel [S]; the tests and examples instantiate it with the iterators of
    [std::string_view], i.e. pointers into a character buffer.  Here a cursor
    is the offset ([nat]) of an element within its underlying buffer (a
    [list]), the end marker is an offset too, [first == last] is [Nat.eqb],
    [first + 1] and [++first] are [first + 1], and [*first] reads the buffer.
    ([first + 1] is written on the iterator itself in the source, which only
    an iterator with pointer-like arithmetic accepts.)
    Reading outside the buffer is undefined behaviour in C++; the embedding
    makes it explicit: every operation returns [option nat], where [None]
    stands for "no defined result" and [Some p] for the returned position. *)

From Stdlib Require Import Ascii String List Arith Bool ZArith Lia.
Import ListNotations.

(** ** The error monad threading undefined behaviour *)

Definition bind {X Y : Type} (m : option X) (k : X -> option Y) : option Y :=
  match m with
  | Some x => k x
  | None => None
  end.

Notation "x <- m ;; k" := (bind m (fun x => k))
  (at level 61, m at next level, right associativity).

(** ** What the code uses from the C++ standard library *)

Module Std.

(** [*it] on a cursor into [buf]: defined only inside the buffer. *)
Definition deref {A : Type} (buf : list A) (it : nat) : option A :=
  nth_error buf it.

(** [std::ranges::begin(r)] and [std::ranges::end(r)] of a range that is a
    whole buffer. *)
Definition begin {A : Type} (r : list A) : nat := 0.
Definition end_ {A : Type} (r : list A) : nat := length r.

(** [first, last) is a valid range of [buf]: the precondition every
    iterator/sentinel pair of the standard library carries. *)
Definition valid_range {A : Type} (buf : list A) (first last : nat) : Prop :=
  first <= last /\ last <= length buf.

(** [std::ranges::in_in_result<I1, I2>]. *)
Record in_in_result : Type := mk_in_in { in1 : nat; in2 : nat }.

Section Mismatch.
Context {A B V1 V2 : Type}.
Variable src : list A.
Variable pat : list B.

(** [std::ranges::mismatch] ([alg.mismatch]) is not code of the repository;
    it is embedded as the loop every implementation runs:
<<
    while (first1 != last1 && first2 != last2) {
        if (!pred(proj1( *first1 ), proj2( *first2 ))) break;
        ++first1; ++first2;
    }
    return {first1, first2};
>>
    Each iteration reads [src] at [first1], so the loop runs at most
    [length src - first1] times before it either stops or reads outside
    the buffer; [mismatch] supplies that many steps (plus the final test)
    as fuel, and [mismatch_loop_fuel] shows more fuel changes nothing. *)
Fixpoint mismatch_loop (fuel : nat) (first1 last1 first2 last2 : nat)
         (pred : V1 -> V2 -> bool) (proj1 : A -> V1) (proj2 : B -> V2)
  : option in_in_result :=
  match fuel with
  | O => None
  | S fuel' =>
      if negb (first1 =? last1) && negb (first2 =? last2) then
        x <- deref src first1 ;;
        y <- deref pat first2 ;;
        if negb (pred (proj1 x) (proj2 y))
        then Some (mk_in_in first1 first2)
        else mismatch_loop fuel' (first1 + 1) last1 (first2 + 1) last2
                           pred proj1 proj2
      else Some (mk_in_in first1 first2)
  end.

Definition mismatch (first1 last1 first2 last2 : nat)
           (pred : V1 -> V2 -> bool) (proj1 : A -> V1) (proj2 : B -> V2)
  : option in_in_result :=
  mismatch_loop (S (length src - first1)) first1 last1 first2 last2
                pred proj1 proj2.
End Mismatch.

(** [std::ranges::equal_to] on characters and [std::identity]. *)
Definition equal_to : ascii -> ascii -> bool := Ascii.eqb.
Definition identity {A : Type} (x : A) : A := x.

End Std.

Import Std.

(** A scanning operation, as the concept [scanning_algorithm<F, I, S>] has it:
    anything invocable with a cursor and an end marker that returns a cursor. *)
Definition Scanner : Type := nat -> nat -> option nat.

(** ** Calls through a function object

    The operations are the [operator()] overloads of function objects, and
    the names [scan], [scan_if], ... denote [constexpr], hence [const],
    objects.  Whether a call expression is accepted depends on the
    declaration of the overload, not on its body: an overload that is not
    declared [const] is no candidate on a [const] object, and an overload
    whose [pred] has no default argument is no candidate for a call that
    leaves [pred] out. *)

(** The function object a call is made on. *)
Inductive constness : Type :=
| non_const_object
| const_object.

(** What a call expression amounts to: rejected by the compiler for want of
    a viable overload, or accepted, with the result of the body. *)
Inductive call_result : Type :=
| ill_formed
| well_formed (result : option nat).

(** What the declaration of a value overload says beyond its body. *)
Record declaration : Type := mk_declaration {
  declared_const : bool;
  pred_has_default : bool
}.

Definition viable (d : declaration) (object : constness) (pred_given : bool)
  : bool :=
  match object with
  | non_const_object => true
  | const_object => declared_const d
  end
  && (pred_given || pred_has_default d).

Definition member_call (d : declaration) (object : constness)
           (pred_given : bool) (body : option nat) : call_result :=
  if viable d object pred_given then well_formed body else ill_formed.

(** The [pred] a call passes on: the one given, or the default-constructed
    [Pred{}] (by default [std::ranges::equal_to{}], whose meaning at the
    types compared is [equal]). *)
Definition pred_or_default {V T : Type} (pred : option (V -> T -> bool))
           (equal : V -> T -> bool) : V -> T -> bool :=
  match pred with
  | Some p => p
  | None => equal
  end.

Definition pred_given {V T : Type} (pred : option (V -> T -> bool)) : bool :=
  match pred with
  | Some _ => true
  | None => false
  end.

(** ** The header: [src/scanning_algorithms.hpp], namespace [pltk::detail] *)

Module Header.

Section scan_fn.
Context {A B T V V1 V2 : Type}.

(** (1) [operator()(I first, S last, const T& value, Pred pred, Proj proj)] *)
Definition scan (src : list A) (first last : nat) (value : T)
           (pred : V -> T -> bool) (proj : A -> V) : option nat :=
  if first =? last then Some first
  else
    x <- deref src first ;;
    if negb (pred (proj x) value) then Some first
    else Some (first + 1).

(** (2) [operator()(R&& r, const T& value, Pred pred, Proj proj)] *)
Definition scan_range (r : list A) (value : T)
           (pred : V -> T -> bool) (proj : A -> V) : option nat :=
  scan r (begin r) (end_ r) value pred proj.

(** (3) [operator()(I1 first1, S1 last1, I2 first2, S2 last2, Pred pred,
        Proj1 proj1, Proj2 proj2)] *)
Definition scan_pattern (src : list A) (pat : list B)
           (first1 last1 first2 last2 : nat)
           (pred : V1 -> V2 -> bool) (proj1 : A -> V1) (proj2 : B -> V2)
  : option nat :=
  ends <- mismatch src pat first1 last1 first2 last2 pred proj1 proj2 ;;
  if in2 ends =? last2 then Some (in1 ends) else Some first1.

(** (4) [operator()(R&& r, I first, S last, ...)] *)
Definition scan_range_pattern (r : list A) (pat : list B)
           (first last : nat)
           (pred : V1 -> V2 -> bool) (proj1 : A -> V1) (proj2 : B -> V2)
  : option nat :=
  scan_pattern r pat (begin r) (end_ r) first last pred proj1 proj2.

(** (5) [operator()(I first, S last, R&& r, ...)] *)
Definition scan_pattern_range (src : list A) (first last : nat)
           (r : list B)
           (pred : V1 -> V2 -> bool) (proj1 : A -> V1) (proj2 : B -> V2)
  : option nat :=
  scan_pattern src r first last (begin r) (end_ r) pred proj1 proj2.

(** (6) [operator()(R1&& r1, R2&& r2, ...)] *)
Definition scan_range_range (r1 : list A) (r2 : list B)
           (pred : V1 -> V2 -> bool) (proj1 : A -> V1) (proj2 : B -> V2)
  : option nat :=
  scan_pattern r1 r2 (begin r1) (end_ r1) (begin r2) (end_ r2)
               pred proj1 proj2.
End scan_fn.

Section scan_if_fn.
Context {A V : Type}.

(** [operator()(I first, S last, Pred pred, Proj proj)] *)
Definition scan_if (src : list A) (first last : nat)
           (pred : V -> bool) (proj : A -> V) : option nat :=
  if first =? last then Some first
  else
    x <- deref src first ;;
    if negb (pred (proj x)) then Some first
    else Some (first + 1).

(** [operator()(R&& r, Pred pred, Proj proj)] *)
Definition scan_if_range (r : list A)
           (pred : V -> bool) (proj : A -> V) : option nat :=
  scan_if r (begin r) (end_ r) pred proj.
End scan_if_fn.

Section scan_not_fn.
Context {A B T V V1 V2 : Type}.

(** (1) [operator()(I first, S last, const T& value, Pred pred, Proj proj)] *)
Definition scan_not (src : list A) (first last : nat) (value : T)
           (pred : V -> T -> bool) (proj : A -> V) : option nat :=
  if first =? last then Some first
  else
    x <- deref src first ;;
    if pred (proj x) value then Some first
    else Some (first + 1).

(** (2) [operator()(R&& r, const T& value, Pred pred, Proj proj)] *)
Definition scan_not_range (r : list A) (value : T)
           (pred : V -> T -> bool) (proj : A -> V) : option nat :=
  scan_not r (begin r) (end_ r) value pred proj.

(** (3) [operator()(I1 first1, S1 last1, I2 first2, S2 last2, Pred pred,
        Proj1 proj1, Proj2 proj2)] *)
Definition scan_not_pattern (src : list A) (pat : list B)
           (first1 last1 first2 last2 : nat)
           (pred : V1 -> V2 -> bool) (proj1 : A -> V1) (proj2 : B -> V2)
  : option nat :=
  ptrs <- mismatch src pat first1 last1 first2 last2 pred proj1 proj2 ;;
  if negb (in2 ptrs =? last2) then Some (first1 + 1) else Some first1.

(** (4) [operator()(R&& r, I first, S last, ...)] *)
Definition scan_not_range_pattern (r : list A) (pat : list B)
           (first last : nat)
           (pred : V1 -> V2 -> bool) (proj1 : A -> V1) (proj2 : B -> V2)
  : option nat :=
  scan_not_pattern r pat (begin r) (end_ r) first last pred proj1 proj2.

(** (5) [operator()(I first, S last, R&& r, ...)] *)
Definition scan_not_pattern_range (src : list A) (first last : nat)
           (r : list B)
           (pred : V1 -> V2 -> bool) (proj1 : A -> V1) (proj2 : B -> V2)
  : option nat :=
  scan_not_pattern src r first last (begin r) (end_ r) pred proj1 proj2.

(** (6) [operator()(R1&& r1, R2&& r2, ...)] *)
Definition scan_not_range_range (r1 : list A) (r2 : list B)
           (pred : V1 -> V2 -> bool) (proj1 : A -> V1) (proj2 : B -> V2)
  : option nat :=
  scan_not_pattern r1 r2 (begin r1) (end_ r1) (begin r2) (end_ r2)
                   pred proj1 proj2.
End scan_not_fn.

Section scan_if_not_fn.
Context {A V : Type}.

(** [operator()(I first, S last, Pred pred, Proj proj)] *)
Definition scan_if_not (src : list A) (first last : nat)
           (pred : V -> bool) (proj : A -> V) : option nat :=
  if first =? last then Some first
  else
    x <- deref src first ;;
    if pred (proj x) then Some first
    else Some (first + 1).

(** [operator()(R&& r, Pred pred, Proj proj)] *)
Definition scan_if_not_range (r : list A)
           (pred : V -> bool) (proj : A -> V) : option nat :=
  scan_if_not r (begin r) (end_ r) pred proj.
End scan_if_not_fn.

(** [inline constexpr detail::scan_fn scan{};] *)
Definition scan_object : constness := const_object.

(** Overload (1) is declared
    [operator() (I first, S last, const T& value, Pred pred = {},
    Proj proj = {}) const]. *)
Definition scan_declaration : declaration :=
  mk_declaration true true.

(** Overload (2) is declared
    [operator() (R&& r, const T& value, Pred pred = {}, Proj proj = {})
    const]. *)
Definition scan_range_declaration : declaration :=
  mk_declaration true true.

(** A call [object(first, last, value, pred, proj)], with [pred] given or
    left out. *)
Definition scan_call {A T V : Type} (object : constness)
           (equal : V -> T -> bool)
           (src : list A) (first last : nat) (value : T)
           (pred : option (V -> T -> bool)) (proj : A -> V) : call_result :=
  member_call scan_declaration object (pred_given pred)
              (scan src first last value (pred_or_default pred equal) proj).

(** A call [object(r, value, pred, proj)]: overload (2), whose body calls
    [operator()] with five arguments on [*this], which is [const] inside a
    [const] member function; that call is overload (1) or nothing. *)
Definition scan_range_call {A T V : Type} (object : constness)
           (equal : V -> T -> bool)
           (r : list A) (value : T)
           (pred : option (V -> T -> bool)) (proj : A -> V) : call_result :=
  if viable scan_range_declaration object (pred_given pred)
  then scan_call const_object equal r (begin r) (end_ r) value
                 (Some (pred_or_default pred equal)) proj
  else ill_formed.

End Header.

(** ** The module unit: [export module scanning_algorithms], namespace [pltk]

    It declares the four scan operations a second time (without the [detail]
    namespace) and, after them, the two exclusion combinators, which the
    header does not have.  The bodies are those of the header; one
    declaration differs: in the module unit overload (1) of [scan_fn] is not
    [const] and its [pred] has no default argument ([scan_declaration]
    below), which decides whether a call of [scan] with a value is accepted
    ([scan_call], [scan_range_call]). *)

Module ModuleUnit.

Section scan_fn.
Context {A B T V V1 V2 : Type}.

(** (1) The body of [operator()(I first, S last, const T& value, Pred pred,
        Proj proj)], which runs when the overload is called on an object
        that is not [const] with [pred] given. *)
Definition scan (src : list A) (first last : nat) (value : T)
           (pred : V -> T -> bool) (proj : A -> V) : option nat :=
  if first =? last then Some first
  else
    x <- deref src first ;;
    if negb (pred (proj x) value) then Some first
    else Some (first + 1).

(** [export inline constexpr scan_fn scan{};] *)
Definition scan_object : constness := const_object.

(** Overload (1) is declared
    [operator() (I first, S last, const T& value, Pred pred,
    Proj proj = {})]: neither [const] nor with a default for [pred]. *)
Definition scan_declaration : declaration :=
  mk_declaration false false.

(** Overload (2) is declared
    [operator() (R&& r, const T& value, Pred pred = {}, Proj proj = {})
    const]. *)
Definition scan_range_declaration : declaration :=
  mk_declaration true true.

(** A call [object(first, last, value, pred, proj)], with [pred] given or
    left out. *)
Definition scan_call (object : constness) (equal : V -> T -> bool)
           (src : list A) (first last : nat) (value : T)
           (pred : option (V -> T -> bool)) (proj : A -> V) : call_result :=
  member_call scan_declaration object (pred_given pred)
              (scan src first last value (pred_or_default pred equal) proj).

(** (2) A call [object(r, value, pred, proj)]: the body of overload (2)
        calls [operator()] with five arguments on [*this], which is [const]
        inside a [const] member function; that call is overload (1) or
        nothing. *)
Definition scan_range_call (object : constness) (equal : V -> T -> bool)
           (r : list A) (value : T)
           (pred : option (V -> T -> bool)) (proj : A -> V) : call_result :=
  if viable scan_range_declaration object (pred_given pred)
  then scan_call const_object equal r (begin r) (end_ r) value
                 (Some (pred_or_default pred equal)) proj
  else ill_formed.

(** (3) [operator()(I1 first1, S1 last1, I2 first2, S2 last2, Pred pred,
        Proj1 proj1, Proj2 proj2)] *)
Definition scan_pattern (src : list A) (pat : list B)
           (first1 last1 first2 last2 : nat)
           (pred : V1 -> V2 -> bool) (proj1 : A -> V1) (proj2 : B -> V2)
  : option nat :=
  ends <- mismatch src pat first1 last1 first2 last2 pred proj1 proj2 ;;
  if in2 ends =? last2 then Some (in1 ends) else Some first1.

(** (4) [operator()(R&& r, I first, S last, ...)] *)
Definition scan_range_pattern (r : list A) (pat : list B)
           (first last : nat)
           (pred : V1 -> V2 -> bool) (proj1 : A -> V1) (proj2 : B -> V2)
  : option nat :=
  scan_pattern r pat (begin r) (end_ r) first last pred proj1 proj2.

(** (5) [operator()(I first, S last, R&& r, ...)] *)
Definition scan_pattern_range (src : list A) (first last : nat)
           (r : list B)
           (pred : V1 -> V2 -> bool) (proj1 : A -> V1) (proj2 : B -> V2)
  : option nat :=
  scan_pattern src r first last (begin r) (end_ r) pred proj1 proj2.

(** (6) [operator()(R1&& r1, R2&& r2, ...)] *)
Definition scan_range_range (r1 : list A) (r2 : list B)
           (pred : V1 -> V2 -> bool) (proj1 : A -> V1) (proj2 : B -> V2)
  : option nat :=
  scan_pattern r1 r2 (begin r1) (end_ r1) (begin r2) (end_ r2)
               pred proj1 proj2.
End scan_fn.

Section scan_if_fn.
Context {A V : Type}.

Definition scan_if (src : list A) (first last : nat)
           (pred : V -> bool) (proj : A -> V) : option nat :=
  if first =? last then Some first
  else
    x <- deref src first ;;
    if negb (pred (proj x)) then Some first
    else Some (first + 1).

Definition scan_if_range (r : list A)
           (pred : V -> bool) (proj : A -> V) : option nat :=
  scan_if r (begin r) (end_ r) pred proj.
End scan_if_fn.

Section scan_not_fn.
Context {A B T V V1 V2 : Type}.

(** (1) *)
Definition scan_not (src : list A) (first last : nat) (value : T)
           (pred : V -> T -> bool) (proj : A -> V) : option nat :=
  if first =? last then Some first
  else
    x <- deref src first ;;
    if pred (proj x) value then Some first
    else Some (first + 1).

(** (2) *)
Definition scan_not_range (r : list A) (value : T)
           (pred : V -> T -> bool) (proj : A -> V) : option nat :=
  scan_not r (begin r) (end_ r) value pred proj.

(** (3) *)
Definition scan_not_pattern (src : list A) (pat : list B)
           (first1 last1 first2 last2 : nat)
           (pred : V1 -> V2 -> bool) (proj1 : A -> V1) (proj2 : B -> V2)
  : option nat :=
  ptrs <- mismatch src pat first1 last1 first2 last2 pred proj1 proj2 ;;
  if negb (in2 ptrs =? last2) then Some (first1 + 1) else Some first1.

(** (4) *)
Definition scan_not_range_pattern (r : list A) (pat : list B)
           (first last : nat)
           (pred : V1 -> V2 -> bool) (proj1 : A -> V1) (proj2 : B -> V2)
  : option nat :=
  scan_not_pattern r pat (begin r) (end_ r) first last pred proj1 proj2.

(** (5) *)
Definition scan_not_pattern_range (src : list A) (first last : nat)
           (r : list B)
           (pred : V1 -> V2 -> bool) (proj1 : A -> V1) (proj2 : B -> V2)
  : option nat :=
  scan_not_pattern src r first last (begin r) (end_ r) pred proj1 proj2.

(** (6) *)
Definition scan_not_range_range (r1 : list A) (r2 : list B)
           (pred : V1 -> V2 -> bool) (proj1 : A -> V1) (proj2 : B -> V2)
  : option nat :=
  scan_not_pattern r1 r2 (begin r1) (end_ r1) (begin r2) (end_ r2)
                   pred proj1 proj2.
End scan_not_fn.

Section scan_if_not_fn.
Context {A V : Type}.

Definition scan_if_not (src : list A) (first last : nat)
           (pred : V -> bool) (proj : A -> V) : option nat :=
  if first =? last then Some first
  else
    x <- deref src first ;;
    if pred (proj x) then Some first
    else Some (first + 1).

Definition scan_if_not_range (r : list A)
           (pred : V -> bool) (proj : A -> V) : option nat :=
  scan_if_not r (begin r) (end_ r) pred proj.
End scan_if_not_fn.

(** [scan_excluding_fn::operator()(I first, S last, Scanner scanner)]:
<<
    if (std::invoke(std::move(scanner), first, last) != first)  return first;
    return first + 1;
>>  *)
Definition scan_excluding (first last : nat) (scanner : Scanner)
  : option nat :=
  r <- scanner first last ;;
  if negb (r =? first) then Some first
  else Some (first + 1).

(** [scan_excluding_fn::operator()(R&& r, Scanner scanner)] *)
Definition scan_excluding_range {A : Type} (r : list A) (scanner : Scanner)
  : option nat :=
  scan_excluding (begin r) (end_ r) scanner.

(** [scan_while_excluding_fn::operator()(I first, S last, Scanner scanner)]:
<<
    while (first != last && std::invoke(scanner, first, last) == first)
        ++first;
    return first;
>>
    The loop calls an arbitrary scanner and reads nothing itself, so nothing
    in it bounds the number of iterations; [fuel] counts the evaluations of
    the loop condition that are allowed, and [None] is returned when they
    are used up (or when the scanner has no defined result). *)
Fixpoint scan_while_excluding (fuel : nat) (first last : nat)
         (scanner : Scanner) : option nat :=
  match fuel with
  | O => None
  | S fuel' =>
      if first =? last then Some first
      else
        r <- scanner first last ;;
        if r =? first
        then scan_while_excluding fuel' (first + 1) last scanner
        else Some first
  end.

(** [scan_while_excluding_fn::operator()(R&& r, Scanner scanner)] *)
Definition scan_while_excluding_range {A : Type} (fuel : nat) (r : list A)
           (scanner : Scanner) : option nat :=
  scan_while_excluding fuel (begin r) (end_ r) scanner.

End ModuleUnit.

(** ** The sources of the test suite and of the examples *)

Module Fixtures.

Definition chars (s : string) : list ascii := list_ascii_of_string s.

Definition source : list ascii := chars "Hello, world!".
Definition hello : list ascii := chars "Hello".
Definition bye : list ascii := chars "Bye".

Definition returns_true2 (_ _ : ascii) : bool := true.
Definition returns_false2 (_ _ : ascii) : bool := false.
Definition returns_true (_ : ascii) : bool := true.
Definition returns_false (_ : ascii) : bool := false.

(** The lambda [[] (unsigned char c) { return std::tolower(c); }] of the
    tests, in the "C" locale: its argument is the character converted to
    [unsigned char] (0..255), its result an [int]. *)
Definition to_lower (c : ascii) : Z :=
  let n := Z.of_nat (nat_of_ascii c) in
  if ((65 <=? n) && (n <=? 90))%Z then (n + 32)%Z else n.

(** The value of a [char] as an [int], [char] being signed as it is for the
    compiler of the Makefile on its usual targets: -128..127. *)
Definition char_to_int (c : ascii) : Z :=
  let n := Z.of_nat (nat_of_ascii c) in
  if (n <? 128)%Z then n else (n - 256)%Z.

(** [std::ranges::equal_to] between the [int] a projection returned and a
    [char]: the character is promoted to [int]. *)
Definition int_equal_to (v : Z) (c : ascii) : bool :=
  (v =? char_to_int c)%Z.

(** The conversion of an [int] to the [char] parameter of a predicate. *)
Definition int_to_char (v : Z) : ascii :=
  ascii_of_nat (Z.to_nat (v mod 256)).

Definition is_H_upper (c : ascii) : bool := Ascii.eqb c "H".

(** The sources of the two example programs. *)
Definition abelson : list ascii :=
  chars "Programs must be written for people to read, and only incidentally for machines to execute. -- Harold Abelson".

Definition torvalds : list ascii :=
  chars "Talk is cheap. Show me the code. -- Linus Torvalds".

(** The example programs: three scans in a row, each from the position the
    previous one returned; after each the character under the cursor is
    printed. *)
Definition scan_example : option (list ascii) :=
  let last := end_ abelson in
  p1 <- Header.scan abelson (begin abelson) last "P"%char
                    equal_to identity ;;
  c1 <- deref abelson p1 ;;
  p2 <- Header.scan_pattern_range abelson p1 last (chars "rograms m")
                                  equal_to identity identity ;;
  c2 <- deref abelson p2 ;;
  p3 <- Header.scan_if abelson p2 last (fun c => Ascii.eqb c "u"%char)
                       identity ;;
  c3 <- deref abelson p3 ;;
  Some [c1; c2; c3].

Definition scan_not_example : option (list ascii) :=
  let last := end_ torvalds in
  p1 <- Header.scan_not torvalds (begin torvalds) last "Q"%char
                        equal_to identity ;;
  c1 <- deref torvalds p1 ;;
  p2 <- Header.scan_not_pattern_range torvalds p1 last (chars "alks")
                                      equal_to identity identity ;;
  c2 <- deref torvalds p2 ;;
  p3 <- Header.scan_if_not torvalds p2 last (fun c => Ascii.eqb c "f"%char)
                           identity ;;
  c3 <- deref torvalds p3 ;;
  Some [c1; c2; c3].

(** A scanning operation for the combinators: does the source begin with
    the pattern [pat] at the given position? *)
Definition begins_with (src pat : list ascii) : Scanner :=
  fun first last =>
    ModuleUnit.scan_pattern_range src first last pat
                                  equal_to identity identity.

End Fixtures.

(** ** Match conditions

    The conditions under which an operation is said to match, on the buffer
    and the positions it is given. *)

Section PatternConditions.
Context {A B V1 V2 : Type}.
Variable src : list A.
Variable pat : list B.
Variable pred : V1 -> V2 -> bool.
Variable proj1 : A -> V1.
Variable proj2 : B -> V2.

(** The elements at the two positions exist and compare equal under the
    comparison policy, each through its own projection. *)
Definition agree_at (i j : nat) : Prop :=
  exists x y, deref src i = Some x /\ deref pat j = Some y /\
              pred (proj1 x) (proj2 y) = true.

(** The elements at the two positions exist and do not compare equal. *)
Definition differ_at (i j : nat) : Prop :=
  exists x y, deref src i = Some x /\ deref pat j = Some y /\
              pred (proj1 x) (proj2 y) = false.

(** The match condition of the pattern forms, with [N = last2 - first2] the
    length of the pattern: the first [N] elements of the source exist and
    each compares equal to the corresponding element of the pattern. *)
Definition prefix_matches (first1 last1 first2 last2 : nat) : Prop :=
  last2 - first2 <= last1 - first1 /\
  forall k, k < last2 - first2 -> agree_at (first1 + k) (first2 + k).

(** The same condition as a test that can be run: [all_agree n i j] compares
    [n] consecutive pairs of elements from positions [i] and [j] on. *)
Fixpoint all_agree (n i j : nat) : bool :=
  match n with
  | O => true
  | S n' =>
      match deref src i, deref pat j with
      | Some x, Some y =>
          pred (proj1 x) (proj2 y) && all_agree n' (i + 1) (j + 1)
      | _, _ => false
      end
  end.

Definition prefix_matchesb (first1 last1 first2 last2 : nat) : bool :=
  (last2 - first2 <=? last1 - first1) &&
  all_agree (last2 - first2) first1 first2.

(** The list [r1] begins with the list [r2], element by element under the
    comparison policy: what the overloads taking two whole ranges decide. *)
Fixpoint starts_with (r1 : list A) (r2 : list B) {struct r2} : bool :=
  match r2 with
  | [] => true
  | y :: r2' =>
      match r1 with
      | [] => false
      | x :: r1' => pred (proj1 x) (proj2 y) && starts_with r1' r2'
      end
  end.

(** The source has fewer elements than the pattern. *)
Definition source_shorter (first1 last1 first2 last2 : nat) : Prop :=
  last1 - first1 < last2 - first2.

(** Some element of the source differs from the corresponding element of
    the pattern. *)
Definition some_differs (first1 last1 first2 last2 : nat) : Prop :=
  exists k, k < last1 - first1 /\ k < last2 - first2 /\
            differ_at (first1 + k) (first2 + k).

End PatternConditions.

Section ValueConditions.
Context {A T V : Type}.
Variable src : list A.
Variables first last : nat.

(** The match condition of [scan] with a value: the source is not at its
    end marker and the projected current element compares equal to the
    value. *)
Definition value_matches (value : T) (pred : V -> T -> bool)
           (proj : A -> V) : Prop :=
  first <> last /\
  exists x, deref src first = Some x /\ pred (proj x) value = true.

(** The match condition of [scan_not] with a value: there is a current
    element and it does not compare equal to the value. *)
Definition value_differs (value : T) (pred : V -> T -> bool)
           (proj : A -> V) : Prop :=
  first <> last /\
  exists x, deref src first = Some x /\ pred (proj x) value = false.

(** The match conditions of [scan_if] and of [scan_if_not]. *)
Definition pred_holds (pred : V -> bool) (proj : A -> V) : Prop :=
  first <> last /\
  exists x, deref src first = Some x /\ pred (proj x) = true.

Definition pred_fails (pred : V -> bool) (proj : A -> V) : Prop :=
  first <> last /\
  exists x, deref src first = Some x /\ pred (proj x) = false.

End ValueConditions.

(** An operation advanced when it returned a position other than the one it
    was given. *)
Definition advances (first : nat) (result : option nat) : Prop :=
  exists p, result = Some p /\ p <> first.

(** The wrapped scanner has a defined result at every position of
    [first, last). *)
Definition scanner_defined (scanner : Scanner) (first last : nat) : Prop :=
  forall p, first <= p < last -> exists r, scanner p last = Some r.

(** The wrapped scanner reports no advancement, respectively some
    advancement, at position [p]. *)
Definition no_advance_at (scanner : Scanner) (last p : nat) : Prop :=
  scanner p last = Some p.

Definition advance_at (scanner : Scanner) (last p : nat) : Prop :=
  exists r, scanner p last = Some r /\ r <> p.

(** The statement of C6 as it is written: whatever the cursor/end-marker
    pair, exactly one of [scan_if] and [scan_if_not] advances. *)
Definition exactly_one_advances {A V : Type} (src : list A)
           (first last : nat) (pred : V -> bool) (proj : A -> V) : Prop :=
  (advances first (Header.scan_if src first last pred proj) /\
   ~ advances first (Header.scan_if_not src first last pred proj)) \/
  (~ advances first (Header.scan_if src first last pred proj) /\
   advances first (Header.scan_if_not src first last pred proj)).

(** * Properties *)

(** ** Reading a buffer *)

Lemma deref_in_range {A : Type} (buf : list A) (it : nat) :
  it < length buf -> exists x, deref buf it = Some x.
Proof.
  intros Hlt. unfold deref.
  destruct (nth_error buf it) as [x|] eqn:E.
  - now exists x.
  - apply nth_error_None in E. lia.
Qed.

Lemma deref_some_lt {A : Type} (buf : list A) (it : nat) (x : A) :
  deref buf it = Some x -> it < length buf.
Proof.
  unfold deref. intros E. apply nth_error_Some. congruence.
Qed.

Lemma valid_range_whole {A : Type} (r : list A) :
  valid_range r (begin r) (end_ r).
Proof.
  unfold valid_range, begin, end_. lia.
Qed.

Lemma valid_range_deref {A : Type} (buf : list A) (first last : nat) :
  valid_range buf first last -> first <> last ->
  exists x, deref buf first = Some x.
Proof.
  intros [Hle Hlen] Hne. apply deref_in_range. lia.
Qed.

(** ** The mismatch loop *)

Section MismatchFacts.
Context {A B V1 V2 : Type}.
Variable src : list A.
Variable pat : list B.
Variable pred : V1 -> V2 -> bool.
Variable proj1 : A -> V1.
Variable proj2 : B -> V2.

Local Abbreviation agree_at := (agree_at src pat pred proj1 proj2).
Local Abbreviation differ_at := (differ_at src pat pred proj1 proj2).
Local Abbreviation prefix_matches := (prefix_matches src pat pred proj1 proj2).
Local Abbreviation some_differs := (some_differs src pat pred proj1 proj2).

Lemma agree_differ_excl (i j : nat) : agree_at i j -> differ_at i j -> False.
Proof.
  intros (x & y & Hx & Hy & Ht) (x' & y' & Hx' & Hy' & Hf). congruence.
Qed.

(** Fuel never decides the result of [mismatch]: past the bound that
    [mismatch] supplies, every amount of fuel gives the same answer. *)
Lemma mismatch_loop_fuel (fuel fuel' : nat) :
  forall first1 last1 first2 last2,
    length src - first1 < fuel -> length src - first1 < fuel' ->
    mismatch_loop src pat fuel first1 last1 first2 last2 pred proj1 proj2 =
    mismatch_loop src pat fuel' first1 last1 first2 last2 pred proj1 proj2.
Proof.
  revert fuel'. induction fuel as [|fuel IH]; intros fuel' f1 l1 f2 l2 H H'.
  - lia.
  - destruct fuel' as [|fuel']; [lia|]. simpl.
    destruct (negb (f1 =? l1) && negb (f2 =? l2)); [|reflexivity].
    destruct (deref src f1) as [x|] eqn:Ex; [|reflexivity]. simpl.
    destruct (deref pat f2) as [y|]; [|reflexivity]. simpl.
    destruct (negb (pred (proj1 x) (proj2 y))); [reflexivity|].
    apply deref_some_lt in Ex. apply IH; lia.
Qed.

Lemma mismatch_fuel (fuel : nat) (first1 last1 first2 last2 : nat) :
  length src - first1 < fuel ->
  mismatch_loop src pat fuel first1 last1 first2 last2 pred proj1 proj2 =
  mismatch src pat first1 last1 first2 last2 pred proj1 proj2.
Proof.
  intros H. unfold mismatch. apply mismatch_loop_fuel; lia.
Qed.

(** What the loop returns on valid ranges: both cursors advanced by the
    same number [n] of steps, over elements that all agree, up to the first
    end reached or the first pair that differs. *)
Lemma mismatch_loop_spec (fuel : nat) :
  forall first1 last1 first2 last2,
    valid_range src first1 last1 -> valid_range pat first2 last2 ->
    last1 - first1 < fuel ->
    exists n,
      mismatch_loop src pat fuel first1 last1 first2 last2 pred proj1 proj2
      = Some (mk_in_in (first1 + n) (first2 + n)) /\
      first1 + n <= last1 /\ first2 + n <= last2 /\
      (forall k, k < n -> agree_at (first1 + k) (first2 + k)) /\
      (first1 + n = last1 \/ first2 + n = last2 \/
       differ_at (first1 + n) (first2 + n)).
Proof.
  induction fuel as [|fuel IH]; intros f1 l1 f2 l2 V1r V2r Hfuel; [lia|].
  pose proof V1r as [Hle1 Hlen1]. pose proof V2r as [Hle2 Hlen2].
  simpl.
  destruct (Nat.eqb_spec f1 l1) as [E1|N1]; simpl.
  { exists 0. rewrite !Nat.add_0_r.
    repeat split; auto; intros; lia. }
  destruct (Nat.eqb_spec f2 l2) as [E2|N2]; simpl.
  { exists 0. rewrite !Nat.add_0_r.
    repeat split; auto; intros; lia. }
  destruct (valid_range_deref _ _ _ V1r N1) as [x Hx].
  destruct (valid_range_deref _ _ _ V2r N2) as [y Hy].
  rewrite Hx, Hy. simpl.
  destruct (pred (proj1 x) (proj2 y)) eqn:Hp; simpl.
  - destruct (IH (f1 + 1) l1 (f2 + 1) l2) as (n & Hr & Hb1 & Hb2 & Hag & Hstop).
    + split; lia.
    + split; lia.
    + lia.
    + exists (S n).
      replace (f1 + S n) with (f1 + 1 + n) by lia.
      replace (f2 + S n) with (f2 + 1 + n) by lia.
      repeat split; auto.
      intros k Hk. destruct k as [|k].
      * rewrite !Nat.add_0_r. exists x, y. auto.
      * replace (f1 + S k) with (f1 + 1 + k) by lia.
        replace (f2 + S k) with (f2 + 1 + k) by lia.
        apply Hag. lia.
  - exists 0. rewrite !Nat.add_0_r.
    repeat split; auto; try lia.
    right. right. exists x, y. auto.
Qed.

Lemma mismatch_spec (first1 last1 first2 last2 : nat) :
  valid_range src first1 last1 -> valid_range pat first2 last2 ->
  exists n,
    mismatch src pat first1 last1 first2 last2 pred proj1 proj2
    = Some (mk_in_in (first1 + n) (first2 + n)) /\
    first1 + n <= last1 /\ first2 + n <= last2 /\
    (forall k, k < n -> agree_at (first1 + k) (first2 + k)) /\
    (first1 + n = last1 \/ first2 + n = last2 \/
     differ_at (first1 + n) (first2 + n)).
Proof.
  intros V1r V2r. unfold mismatch.
  apply mismatch_loop_spec; auto. destruct V1r. lia.
Qed.

(** The pattern is exhausted exactly when the whole pattern matched. *)
Lemma mismatch_exhausts_pattern_iff (first1 last1 first2 last2 n : nat) :
  first1 + n <= last1 -> first2 + n <= last2 ->
  (forall k, k < n -> agree_at (first1 + k) (first2 + k)) ->
  (first1 + n = last1 \/ first2 + n = last2 \/
   differ_at (first1 + n) (first2 + n)) ->
  (first2 + n = last2 <-> prefix_matches first1 last1 first2 last2).
Proof.
  intros Hb1 Hb2 Hag Hstop. split.
  - intros E. split; [lia|]. intros k Hk. apply Hag. lia.
  - intros [Hlen Hall].
    destruct (Nat.eq_dec (first2 + n) last2) as [E|NE]; [exact E|].
    exfalso. assert (Hn : n < last2 - first2) by lia.
    destruct Hstop as [E1|[E2|Hd]]; [lia|lia|].
    exact (agree_differ_excl _ _ (Hall n Hn) Hd).
Qed.

(** On valid ranges the match condition is decided by the loop, so its
    negation is the disjunction the prose uses. *)
Lemma prefix_matches_dec (first1 last1 first2 last2 : nat) :
  valid_range src first1 last1 -> valid_range pat first2 last2 ->
  prefix_matches first1 last1 first2 last2 \/
  source_shorter first1 last1 first2 last2 \/
  some_differs first1 last1 first2 last2.
Proof.
  intros V1r V2r.
  destruct (mismatch_spec _ _ _ _ V1r V2r) as (n & _ & Hb1 & Hb2 & Hag & Hstop).
  destruct (Nat.eq_dec (first2 + n) last2) as [E|NE].
  - left.
    pose proof (mismatch_exhausts_pattern_iff first1 last1 first2 last2 n
                  Hb1 Hb2 Hag Hstop) as Hiff.
    tauto.
  - right. destruct Hstop as [E1|[E2|Hd]]; [|contradiction|].
    + left. unfold source_shorter. lia.
    + destruct (Nat.eq_dec (first1 + n) last1) as [E1|NE1].
      * left. unfold source_shorter. lia.
      * right. exists n. repeat split; [lia|lia|exact Hd].
Qed.

Lemma not_prefix_matches (first1 last1 first2 last2 : nat) :
  source_shorter first1 last1 first2 last2 \/
  some_differs first1 last1 first2 last2 ->
  ~ prefix_matches first1 last1 first2 last2.
Proof.
  intros [Hs|(k & Hk1 & Hk2 & Hd)] [Hlen Hall].
  - unfold source_shorter in Hs. lia.
  - exact (agree_differ_excl _ _ (Hall k Hk2) Hd).
Qed.

Lemma all_agree_iff (n : nat) :
  forall i j,
    all_agree src pat pred proj1 proj2 n i j = true <->
    (forall k, k < n -> agree_at (i + k) (j + k)).
Proof.
  induction n as [|n IH]; intros i j; simpl.
  - split; [intros _ k Hk; lia | reflexivity].
  - split.
    + destruct (deref src i) as [x|] eqn:Hx; [|discriminate].
      destruct (deref pat j) as [y|] eqn:Hy; [|discriminate].
      intros Hb. apply andb_true_iff in Hb. destruct Hb as [Hp Hrest].
      intros k Hk. destruct k as [|k].
      * rewrite !Nat.add_0_r. exists x, y. auto.
      * replace (i + S k) with (i + 1 + k) by lia.
        replace (j + S k) with (j + 1 + k) by lia.
        apply (IH (i + 1) (j + 1)); [exact Hrest | lia].
    + intros Hall.
      destruct (Hall 0) as (x & y & Hx & Hy & Hp); [lia|].
      rewrite !Nat.add_0_r in Hx, Hy. rewrite Hx, Hy, Hp. simpl.
      apply IH. intros k Hk.
      replace (i + 1 + k) with (i + S k) by lia.
      replace (j + 1 + k) with (j + S k) by lia.
      apply Hall. lia.
Qed.

Lemma prefix_matchesb_iff (first1 last1 first2 last2 : nat) :
  prefix_matchesb src pat pred proj1 proj2 first1 last1 first2 last2 = true
  <-> prefix_matches first1 last1 first2 last2.
Proof.
  unfold prefix_matchesb.
  split.
  - intros Hb. apply andb_true_iff in Hb. destruct Hb as [Hlen Hall].
    split; [apply Nat.leb_le, Hlen | apply all_agree_iff, Hall].
  - intros [Hlen Hall]. apply andb_true_iff.
    split; [apply Nat.leb_le, Hlen | apply all_agree_iff, Hall].
Qed.

End MismatchFacts.

(** ** The pattern forms of [scan] and [scan_not] *)

Section PatternForms.
Context {A B V1 V2 : Type}.
Variable src : list A.
Variable pat : list B.
Variable pred : V1 -> V2 -> bool.
Variable proj1 : A -> V1.
Variable proj2 : B -> V2.
Variables first1 last1 first2 last2 : nat.
Hypothesis Hsrc : valid_range src first1 last1.
Hypothesis Hpat : valid_range pat first2 last2.

Local Abbreviation matches :=
  (prefix_matches src pat pred proj1 proj2 first1 last1 first2 last2).

Lemma scan_pattern_match :
  matches ->
  Header.scan_pattern src pat first1 last1 first2 last2 pred proj1 proj2
  = Some (first1 + (last2 - first2)).
Proof.
  intros Hm. unfold Header.scan_pattern.
  destruct (mismatch_spec src pat pred proj1 proj2 _ _ _ _ Hsrc Hpat)
    as (n & Hr & Hb1 & Hb2 & Hag & Hstop).
  rewrite Hr. simpl.
  pose proof (mismatch_exhausts_pattern_iff src pat pred proj1 proj2
                _ _ _ _ _ Hb1 Hb2 Hag Hstop) as Hiff.
  apply Hiff in Hm. rewrite <- Hm, Nat.eqb_refl.
  f_equal. lia.
Qed.

Lemma scan_pattern_no_match :
  ~ matches ->
  Header.scan_pattern src pat first1 last1 first2 last2 pred proj1 proj2
  = Some first1.
Proof.
  intros Hm. unfold Header.scan_pattern.
  destruct (mismatch_spec src pat pred proj1 proj2 _ _ _ _ Hsrc Hpat)
    as (n & Hr & Hb1 & Hb2 & Hag & Hstop).
  rewrite Hr. simpl.
  pose proof (mismatch_exhausts_pattern_iff src pat pred proj1 proj2
                _ _ _ _ _ Hb1 Hb2 Hag Hstop) as Hiff.
  destruct (Nat.eqb_spec (first2 + n) last2) as [E|NE]; [|reflexivity].
  apply Hiff in E. contradiction.
Qed.

Lemma scan_not_pattern_match :
  matches ->
  Header.scan_not_pattern src pat first1 last1 first2 last2 pred proj1 proj2
  = Some first1.
Proof.
  intros Hm. unfold Header.scan_not_pattern.
  destruct (mismatch_spec src pat pred proj1 proj2 _ _ _ _ Hsrc Hpat)
    as (n & Hr & Hb1 & Hb2 & Hag & Hstop).
  rewrite Hr. simpl.
  pose proof (mismatch_exhausts_pattern_iff src pat pred proj1 proj2
                _ _ _ _ _ Hb1 Hb2 Hag Hstop) as Hiff.
  apply Hiff in Hm. rewrite <- Hm, Nat.eqb_refl. reflexivity.
Qed.

Lemma scan_not_pattern_no_match :
  ~ matches ->
  Header.scan_not_pattern src pat first1 last1 first2 last2 pred proj1 proj2
  = Some (first1 + 1).
Proof.
  intros Hm. unfold Header.scan_not_pattern.
  destruct (mismatch_spec src pat pred proj1 proj2 _ _ _ _ Hsrc Hpat)
    as (n & Hr & Hb1 & Hb2 & Hag & Hstop).
  rewrite Hr. simpl.
  pose proof (mismatch_exhausts_pattern_iff src pat pred proj1 proj2
                _ _ _ _ _ Hb1 Hb2 Hag Hstop) as Hiff.
  destruct (Nat.eqb_spec (first2 + n) last2) as [E|NE]; [|reflexivity].
  apply Hiff in E. contradiction.
Qed.

(** Both pattern forms in closed form. *)
Lemma scan_pattern_eq :
  Header.scan_pattern src pat first1 last1 first2 last2 pred proj1 proj2
  = Some (if prefix_matchesb src pat pred proj1 proj2
                             first1 last1 first2 last2
          then first1 + (last2 - first2) else first1).
Proof.
  destruct (prefix_matchesb src pat pred proj1 proj2
                            first1 last1 first2 last2) eqn:Hb.
  - apply scan_pattern_match, prefix_matchesb_iff, Hb.
  - apply scan_pattern_no_match. intros Hm.
    apply prefix_matchesb_iff in Hm. congruence.
Qed.

Lemma scan_not_pattern_eq :
  Header.scan_not_pattern src pat first1 last1 first2 last2 pred proj1 proj2
  = Some (if prefix_matchesb src pat pred proj1 proj2
                             first1 last1 first2 last2
          then first1 else first1 + 1).
Proof.
  destruct (prefix_matchesb src pat pred proj1 proj2
                            first1 last1 first2 last2) eqn:Hb.
  - apply scan_not_pattern_match, prefix_matchesb_iff, Hb.
  - apply scan_not_pattern_no_match. intros Hm.
    apply prefix_matchesb_iff in Hm. congruence.
Qed.

End PatternForms.

(** ** The single-element forms *)

Section ValueForms.
Context {A T V : Type}.
Variable src : list A.
Variables first last : nat.
Hypothesis Hsrc : valid_range src first last.

Local Abbreviation value_matches := (value_matches src first last).
Local Abbreviation value_differs := (value_differs src first last).
Local Abbreviation pred_holds := (pred_holds src first last).
Local Abbreviation pred_fails := (pred_fails src first last).

Lemma scan_cases (value : T) (pred : V -> T -> bool) (proj : A -> V) :
  (value_matches value pred proj /\
   Header.scan src first last value pred proj = Some (first + 1)) \/
  (~ value_matches value pred proj /\
   Header.scan src first last value pred proj = Some first).
Proof.
  unfold Header.scan, value_matches.
  destruct (Nat.eqb_spec first last) as [E|NE].
  - right. split; [intros [H _]; contradiction | reflexivity].
  - destruct (valid_range_deref _ _ _ Hsrc NE) as [x Hx]. rewrite Hx. simpl.
    destruct (pred (proj x) value) eqn:Hp; simpl.
    + left. split; [|reflexivity]. split; [exact NE|]. now exists x.
    + right. split; [|reflexivity].
      intros [_ (x' & Hx' & Hp')]. congruence.
Qed.

Lemma scan_not_cases (value : T) (pred : V -> T -> bool) (proj : A -> V) :
  (value_differs value pred proj /\
   Header.scan_not src first last value pred proj = Some (first + 1)) \/
  (~ value_differs value pred proj /\
   Header.scan_not src first last value pred proj = Some first).
Proof.
  unfold Header.scan_not, value_differs.
  destruct (Nat.eqb_spec first last) as [E|NE].
  - right. split; [intros [H _]; contradiction | reflexivity].
  - destruct (valid_range_deref _ _ _ Hsrc NE) as [x Hx]. rewrite Hx. simpl.
    destruct (pred (proj x) value) eqn:Hp; simpl.
    + right. split; [|reflexivity].
      intros [_ (x' & Hx' & Hp')]. congruence.
    + left. split; [|reflexivity]. split; [exact NE|]. now exists x.
Qed.

Lemma scan_if_cases (pred : V -> bool) (proj : A -> V) :
  (pred_holds pred proj /\
   Header.scan_if src first last pred proj = Some (first + 1)) \/
  (~ pred_holds pred proj /\
   Header.scan_if src first last pred proj = Some first).
Proof.
  unfold Header.scan_if, pred_holds.
  destruct (Nat.eqb_spec first last) as [E|NE].
  - right. split; [intros [H _]; contradiction | reflexivity].
  - destruct (valid_range_deref _ _ _ Hsrc NE) as [x Hx]. rewrite Hx. simpl.
    destruct (pred (proj x)) eqn:Hp; simpl.
    + left. split; [|reflexivity]. split; [exact NE|]. now exists x.
    + right. split; [|reflexivity].
      intros [_ (x' & Hx' & Hp')]. congruence.
Qed.

Lemma scan_if_not_cases (pred : V -> bool) (proj : A -> V) :
  (pred_fails pred proj /\
   Header.scan_if_not src first last pred proj = Some (first + 1)) \/
  (~ pred_fails pred proj /\
   Header.scan_if_not src first last pred proj = Some first).
Proof.
  unfold Header.scan_if_not, pred_fails.
  destruct (Nat.eqb_spec first last) as [E|NE].
  - right. split; [intros [H _]; contradiction | reflexivity].
  - destruct (valid_range_deref _ _ _ Hsrc NE) as [x Hx]. rewrite Hx. simpl.
    destruct (pred (proj x)) eqn:Hp; simpl.
    + right. split; [|reflexivity].
      intros [_ (x' & Hx' & Hp')]. congruence.
    + left. split; [|reflexivity]. split; [exact NE|]. now exists x.
Qed.

End ValueForms.

(** ** The exclusion combinators *)

Lemma no_advance_advance_excl (scanner : Scanner) (last p : nat) :
  no_advance_at scanner last p -> advance_at scanner last p -> False.
Proof.
  unfold no_advance_at. intros H (r & Hr & Hne). congruence.
Qed.

Lemma scan_excluding_cases (first last : nat) (scanner : Scanner) (r : nat) :
  scanner first last = Some r ->
  (r = first /\
   ModuleUnit.scan_excluding first last scanner = Some (first + 1)) \/
  (r <> first /\
   ModuleUnit.scan_excluding first last scanner = Some first).
Proof.
  intros Hr. unfold ModuleUnit.scan_excluding. rewrite Hr. simpl.
  destruct (Nat.eqb_spec r first) as [E|NE]; simpl; auto.
Qed.

(** One evaluation of the loop condition suffices when it is false at the
    start. *)
Lemma scan_while_excluding_stops (fuel first last : nat) (scanner : Scanner) :
  0 < fuel ->
  first = last \/ advance_at scanner last first ->
  ModuleUnit.scan_while_excluding fuel first last scanner = Some first.
Proof.
  intros Hfuel Hstop. destruct fuel as [|fuel]; [lia|]. simpl.
  destruct (Nat.eqb_spec first last) as [E|NE]; [reflexivity|].
  destruct Hstop as [E|(r & Hr & Hne)]; [contradiction|].
  rewrite Hr. simpl.
  destruct (Nat.eqb_spec r first) as [E|_]; [contradiction|reflexivity].
Qed.

(** The loop on a valid range: it stops after at most [last - first]
    increments, at the first position that is the end or at which the
    scanner advances. *)
Lemma scan_while_excluding_spec (last : nat) (scanner : Scanner) :
  forall d first,
    last - first = d -> first <= last ->
    scanner_defined scanner first last ->
    exists stop,
      (forall fuel, d < fuel ->
         ModuleUnit.scan_while_excluding fuel first last scanner = Some stop) /\
      first <= stop <= last /\
      (forall p, first <= p < stop -> no_advance_at scanner last p) /\
      (stop = last \/ advance_at scanner last stop).
Proof.
  induction d as [|d IH]; intros first Hd Hle Hdef.
  - assert (first = last) by lia. subst first.
    exists last. split; [|split; [|split]].
    + intros fuel Hfuel. apply scan_while_excluding_stops; auto.
    + lia.
    + intros p Hp. lia.
    + now left.
  - destruct (Hdef first) as [r Hr]; [lia|].
    destruct (Nat.eq_dec r first) as [E|NE].
    + subst r.
      destruct (IH (first + 1)) as (stop & Hrun & Hb & Hno & Hstop);
        [lia | lia | intros p Hp; apply Hdef; lia |].
      exists stop. split; [|split; [|split]].
      * intros fuel Hfuel. destruct fuel as [|fuel]; [lia|]. simpl.
        destruct (Nat.eqb_spec first last) as [E|_]; [lia|].
        rewrite Hr. simpl. rewrite Nat.eqb_refl. apply Hrun. lia.
      * lia.
      * intros p Hp. destruct (Nat.eq_dec p first) as [->|Hpf].
        -- exact Hr.
        -- apply Hno. lia.
      * exact Hstop.
    + exists first. split; [|split; [|split]].
      * intros fuel Hfuel. apply scan_while_excluding_stops; [lia|].
        right. exists r. auto.
      * lia.
      * intros p Hp. lia.
      * right. exists r. auto.
Qed.

(** The overload taking a range needs no assumption on the positions: a range
    is always valid. *)
Lemma scan_while_excluding_range_stops {A : Type} (r : list A)
      (scanner : Scanner) :
  scanner_defined scanner (begin r) (end_ r) ->
  exists stop,
    (forall fuel, length r < fuel ->
       ModuleUnit.scan_while_excluding_range fuel r scanner = Some stop) /\
    stop <= end_ r.
Proof.
  intros Hdef. destruct (valid_range_whole r) as [Hle _].
  destruct (scan_while_excluding_spec (end_ r) scanner
              (end_ r - begin r) (begin r) eq_refl Hle Hdef)
    as (stop & Hrun & Hb & _).
  exists stop. split; [|lia].
  intros fuel Hfuel. apply Hrun. unfold end_, begin. lia.
Qed.

(** ** The scenarios of the test suite *)

Module Tests.
Import Fixtures.
Local Open Scope char_scope.

Example scan_value_advances :
  Header.scan source 0 13 "H" equal_to identity = Some 1.
Proof. reflexivity. Qed.

Example scan_value_stays :
  Header.scan source 0 13 "B" equal_to identity = Some 0.
Proof. reflexivity. Qed.

Example scan_hello_advances_by_five :
  Header.scan_pattern source hello 0 13 0 5 equal_to identity identity
  = Some 5.
Proof. reflexivity. Qed.

Example scan_bye_stays :
  Header.scan_pattern source bye 0 13 0 3 equal_to identity identity
  = Some 0.
Proof. reflexivity. Qed.

Example scan_bye_returns_true :
  Header.scan_range_range source bye returns_true2 identity identity
  = Some 3.
Proof. reflexivity. Qed.

Example scan_projection :
  Header.scan source 0 13 "h" int_equal_to to_lower = Some 1.
Proof. reflexivity. Qed.

(** A character above 127 is never equal to its own [std::tolower]: the
    projection returns 128..255, the character promotes to a negative
    [int]. *)
Example scan_projection_high_char :
  Header.scan [ascii_of_nat 200] 0 1 (ascii_of_nat 200)
              int_equal_to to_lower = Some 0.
Proof. reflexivity. Qed.

Example scan_if_projection_stays :
  Header.scan_if source 0 13 is_H_upper
                 (fun c => int_to_char (to_lower c)) = Some 0.
Proof. reflexivity. Qed.

Example scan_not_hello_stays :
  Header.scan_not_pattern source hello 0 13 0 5 equal_to identity identity
  = Some 0.
Proof. reflexivity. Qed.

Example scan_not_bye_advances_by_one :
  Header.scan_not_pattern source bye 0 13 0 3 equal_to identity identity
  = Some 1.
Proof. reflexivity. Qed.

Example scan_not_hello_returns_false :
  Header.scan_not_range_range source hello returns_false2 identity identity
  = Some 1.
Proof. reflexivity. Qed.

Example scan_if_not_returns_false :
  Header.scan_if_not_range source returns_false identity = Some 1.
Proof. reflexivity. Qed.

Example skip_until_world :
  ModuleUnit.scan_while_excluding 14 0 13 (begins_with source (chars "world"))
  = Some 7.
Proof. reflexivity. Qed.

Example skip_to_the_end :
  ModuleUnit.scan_while_excluding_range 14 source (begins_with source bye)
  = Some 13.
Proof. reflexivity. Qed.

End Tests.

(** * The claims *)

Import Fixtures.

(** C1.  Identity on no match: for each of the six operations, on every
    valid input on which its match condition is false, the position returned
    is exactly the position passed in.  No operation has another way of
    reporting "no match": on every valid input each of them returns a
    position ([Some p]); the combinators do so when the wrapped scanner does,
    and [scan_while_excluding] within [last - first] increments. *)
Theorem identity_on_no_match
  {A B T V V1 V2 : Type} (src : list A) (pat : list B)
  (first last first2 last2 : nat) (value : T)
  (pred : V -> T -> bool) (proj : A -> V)
  (pred2 : V1 -> V2 -> bool) (proj1 : A -> V1) (proj2 : B -> V2)
  (upred : V -> bool) (scanner : Scanner) (fuel : nat) :
  valid_range src first last ->
  valid_range pat first2 last2 ->
  (* scan *)
  (~ value_matches src first last value pred proj ->
   Header.scan src first last value pred proj = Some first) /\
  (~ prefix_matches src pat pred2 proj1 proj2 first last first2 last2 ->
   Header.scan_pattern src pat first last first2 last2 pred2 proj1 proj2
   = Some first) /\
  (* scan_if *)
  (~ pred_holds src first last upred proj ->
   Header.scan_if src first last upred proj = Some first) /\
  (* scan_not *)
  (~ value_differs src first last value pred proj ->
   Header.scan_not src first last value pred proj = Some first) /\
  (~ (source_shorter first last first2 last2 \/
      some_differs src pat pred2 proj1 proj2 first last first2 last2) ->
   Header.scan_not_pattern src pat first last first2 last2 pred2 proj1 proj2
   = Some first) /\
  (* scan_if_not *)
  (~ pred_fails src first last upred proj ->
   Header.scan_if_not src first last upred proj = Some first) /\
  (* scan_excluding *)
  (advance_at scanner last first ->
   ModuleUnit.scan_excluding first last scanner = Some first) /\
  (* scan_while_excluding *)
  (0 < fuel -> first = last \/ advance_at scanner last first ->
   ModuleUnit.scan_while_excluding fuel first last scanner = Some first) /\
  (* every operation returns a position *)
  (exists p, Header.scan src first last value pred proj = Some p) /\
  (exists p, Header.scan_pattern src pat first last first2 last2
                                 pred2 proj1 proj2 = Some p) /\
  (exists p, Header.scan_if src first last upred proj = Some p) /\
  (exists p, Header.scan_not src first last value pred proj = Some p) /\
  (exists p, Header.scan_not_pattern src pat first last first2 last2
                                     pred2 proj1 proj2 = Some p) /\
  (exists p, Header.scan_if_not src first last upred proj = Some p) /\
  ((exists r, scanner first last = Some r) ->
   exists p, ModuleUnit.scan_excluding first last scanner = Some p) /\
  (scanner_defined scanner first last -> last - first < fuel ->
   exists p, ModuleUnit.scan_while_excluding fuel first last scanner = Some p).
Proof.
  intros Hsrc Hpat.
  pose proof (scan_cases src first last Hsrc value pred proj) as Hscan.
  pose proof (scan_if_cases src first last Hsrc upred proj) as Hif.
  pose proof (scan_not_cases src first last Hsrc value pred proj) as Hnot.
  pose proof (scan_if_not_cases src first last Hsrc upred proj) as Hifnot.
  pose proof (prefix_matches_dec src pat pred2 proj1 proj2
                first last first2 last2 Hsrc Hpat) as Hdec.
  pose proof (not_prefix_matches src pat pred2 proj1 proj2
                first last first2 last2) as Hexcl.
  pose proof (scan_pattern_match src pat pred2 proj1 proj2
                first last first2 last2 Hsrc Hpat) as Hpm.
  pose proof (scan_pattern_no_match src pat pred2 proj1 proj2
                first last first2 last2 Hsrc Hpat) as Hpn.
  pose proof (scan_not_pattern_match src pat pred2 proj1 proj2
                first last first2 last2 Hsrc Hpat) as Hnm.
  pose proof (scan_not_pattern_no_match src pat pred2 proj1 proj2
                first last first2 last2 Hsrc Hpat) as Hnn.
  repeat match goal with |- _ /\ _ => split end.
  - intros Hno. destruct Hscan as [[Hm _]|[_ Hr]]; [contradiction|exact Hr].
  - exact Hpn.
  - intros Hno. destruct Hif as [[Hm _]|[_ Hr]]; [contradiction|exact Hr].
  - intros Hno. destruct Hnot as [[Hm _]|[_ Hr]]; [contradiction|exact Hr].
  - intros Hno. destruct Hdec as [Hm|Hf]; [auto|contradiction].
  - intros Hno. destruct Hifnot as [[Hm _]|[_ Hr]]; [contradiction|exact Hr].
  - intros (r & Hr & Hne).
    destruct (scan_excluding_cases first last scanner r Hr) as [[E _]|[_ H]];
      [contradiction|exact H].
  - apply scan_while_excluding_stops.
  - destruct Hscan as [[_ Hr]|[_ Hr]]; eauto.
  - destruct Hdec as [Hm|Hf]; eauto.
  - destruct Hif as [[_ Hr]|[_ Hr]]; eauto.
  - destruct Hnot as [[_ Hr]|[_ Hr]]; eauto.
  - destruct Hdec as [Hm|Hf]; eauto.
  - destruct Hifnot as [[_ Hr]|[_ Hr]]; eauto.
  - intros [r Hr].
    destruct (scan_excluding_cases first last scanner r Hr) as [[_ H]|[_ H]];
      eauto.
  - intros Hdef Hfuel. destruct Hsrc as [Hle _].
    destruct (scan_while_excluding_spec last scanner (last - first) first
                eq_refl Hle Hdef) as (stop & Hrun & _).
    exists stop. apply Hrun. exact Hfuel.
Qed.

Lemma identity_on_no_match_witness :
  valid_range source 0 13 /\ valid_range bye 0 3 /\
  Header.scan source 0 13 "B"%char equal_to identity = Some 0 /\
  Header.scan_pattern source bye 0 13 0 3 equal_to identity identity
  = Some 0 /\
  Header.scan_if source 0 13 returns_false identity = Some 0 /\
  ModuleUnit.scan_excluding 0 13 (begins_with source hello) = Some 0 /\
  ModuleUnit.scan_while_excluding 14 0 13 (begins_with source hello)
  = Some 0.
Proof.
  assert (Hs : valid_range source 0 13) by (split; simpl; lia).
  assert (Hp : valid_range bye 0 3) by (split; simpl; lia).
  assert (Hadv : advance_at (begins_with source hello) 13 0).
  { exists 5. split; [reflexivity | lia]. }
  destruct (identity_on_no_match source bye 0 13 0 3 "B"%char
              equal_to identity equal_to identity identity
              returns_false (begins_with source hello) 14 Hs Hp)
    as (Hscan & Hpattern & Hif & _ & _ & _ & Hexcl & Hwhile & _).
  split; [exact Hs|]. split; [exact Hp|].
  split; [|split; [|split; [|split]]].
  - apply Hscan. intros [_ (x & Hx & Hc)].
    vm_compute in Hx. inversion Hx; subst x. vm_compute in Hc. discriminate.
  - apply Hpattern. intros Hm. apply prefix_matchesb_iff in Hm.
    vm_compute in Hm. discriminate.
  - apply Hif. intros [_ (x & _ & Hc)]. discriminate.
  - apply Hexcl. exact Hadv.
  - apply Hwhile; [lia|]. right. exact Hadv.
Defined.

(** C2.  [scan], pattern form, with a pattern of length [N = last2 - first2]:
    when the first [N] elements of the source exist and each compares equal
    to the corresponding element of the pattern, the source cursor advanced
    by exactly [N] is returned; when the source is shorter than the pattern
    or some element differs, the original cursor is returned.  No other
    position is ever returned, in particular no partially advanced one. *)
Theorem scan_pattern_correct
  {A B V1 V2 : Type} (src : list A) (pat : list B)
  (first1 last1 first2 last2 : nat)
  (pred : V1 -> V2 -> bool) (proj1 : A -> V1) (proj2 : B -> V2) :
  valid_range src first1 last1 ->
  valid_range pat first2 last2 ->
  (prefix_matches src pat pred proj1 proj2 first1 last1 first2 last2 ->
   Header.scan_pattern src pat first1 last1 first2 last2 pred proj1 proj2
   = Some (first1 + (last2 - first2))) /\
  (source_shorter first1 last1 first2 last2 \/
   some_differs src pat pred proj1 proj2 first1 last1 first2 last2 ->
   Header.scan_pattern src pat first1 last1 first2 last2 pred proj1 proj2
   = Some first1) /\
  (Header.scan_pattern src pat first1 last1 first2 last2 pred proj1 proj2
   = Some (first1 + (last2 - first2)) \/
   Header.scan_pattern src pat first1 last1 first2 last2 pred proj1 proj2
   = Some first1).
Proof.
  intros Hsrc Hpat.
  pose proof (scan_pattern_match src pat pred proj1 proj2
                first1 last1 first2 last2 Hsrc Hpat) as Hyes.
  pose proof (scan_pattern_no_match src pat pred proj1 proj2
                first1 last1 first2 last2 Hsrc Hpat) as Hno.
  pose proof (not_prefix_matches src pat pred proj1 proj2
                first1 last1 first2 last2) as Hexcl.
  split; [exact Hyes|]. split.
  - intros Hfail. apply Hno, Hexcl, Hfail.
  - destruct (prefix_matches_dec src pat pred proj1 proj2
                first1 last1 first2 last2 Hsrc Hpat) as [Hm|Hf].
    + left. apply Hyes, Hm.
    + right. apply Hno, Hexcl, Hf.
Qed.

Lemma scan_pattern_correct_witness :
  valid_range source 0 13 /\ valid_range hello 0 5 /\
  Header.scan_pattern source hello 0 13 0 5 equal_to identity identity
  = Some (0 + (5 - 0)).
Proof.
  assert (Hs : valid_range source 0 13) by (split; simpl; lia).
  assert (Hp : valid_range hello 0 5) by (split; simpl; lia).
  split; [exact Hs|]. split; [exact Hp|].
  destruct (scan_pattern_correct source hello 0 13 0 5
              equal_to identity identity Hs Hp) as (Hmatch & _).
  apply Hmatch. apply prefix_matchesb_iff. reflexivity.
Defined.

(** C3.  [scan_not], pattern form, in the header and in the module unit: it
    returns the source cursor advanced by exactly one, whatever the length
    [N] of the pattern, if and only if the first [N] elements of the source
    do not all equal the pattern (the source is shorter than the pattern, or
    some element differs); when the whole pattern matches, it returns the
    original cursor. *)
Theorem scan_not_pattern_correct
  {A B V1 V2 : Type} (src : list A) (pat : list B)
  (first1 last1 first2 last2 : nat)
  (pred : V1 -> V2 -> bool) (proj1 : A -> V1) (proj2 : B -> V2) :
  valid_range src first1 last1 ->
  valid_range pat first2 last2 ->
  (Header.scan_not_pattern src pat first1 last1 first2 last2 pred proj1 proj2
   = Some (first1 + 1) <->
   source_shorter first1 last1 first2 last2 \/
   some_differs src pat pred proj1 proj2 first1 last1 first2 last2) /\
  (Header.scan_not_pattern src pat first1 last1 first2 last2 pred proj1 proj2
   = Some (first1 + 1) <->
   ~ prefix_matches src pat pred proj1 proj2 first1 last1 first2 last2) /\
  (prefix_matches src pat pred proj1 proj2 first1 last1 first2 last2 ->
   Header.scan_not_pattern src pat first1 last1 first2 last2 pred proj1 proj2
   = Some first1) /\
  ModuleUnit.scan_not_pattern src pat first1 last1 first2 last2
                              pred proj1 proj2
  = Header.scan_not_pattern src pat first1 last1 first2 last2
                            pred proj1 proj2.
Proof.
  intros Hsrc Hpat.
  pose proof (scan_not_pattern_match src pat pred proj1 proj2
                first1 last1 first2 last2 Hsrc Hpat) as Hyes.
  pose proof (scan_not_pattern_no_match src pat pred proj1 proj2
                first1 last1 first2 last2 Hsrc Hpat) as Hno.
  pose proof (not_prefix_matches src pat pred proj1 proj2
                first1 last1 first2 last2) as Hexcl.
  pose proof (prefix_matches_dec src pat pred proj1 proj2
                first1 last1 first2 last2 Hsrc Hpat) as Hdec.
  assert (Hstay : prefix_matches src pat pred proj1 proj2
                                 first1 last1 first2 last2 ->
                  Header.scan_not_pattern src pat first1 last1 first2 last2
                                          pred proj1 proj2
                  <> Some (first1 + 1)).
  { intros Hm Heq. rewrite (Hyes Hm) in Heq. injection Heq. lia. }
  split; [|split; [|split]].
  - split.
    + intros Heq. destruct Hdec as [Hm|Hf]; [|exact Hf].
      exfalso. exact (Hstay Hm Heq).
    + intros Hf. apply Hno, Hexcl, Hf.
  - split.
    + intros Heq Hm. exact (Hstay Hm Heq).
    + exact Hno.
  - exact Hyes.
  - reflexivity.
Qed.

Lemma scan_not_pattern_correct_witness :
  valid_range source 0 13 /\ valid_range bye 0 3 /\
  Header.scan_not_pattern source bye 0 13 0 3 equal_to identity identity
  = Some (0 + 1).
Proof.
  assert (Hs : valid_range source 0 13) by (split; simpl; lia).
  assert (Hp : valid_range bye 0 3) by (split; simpl; lia).
  split; [exact Hs|]. split; [exact Hp|].
  destruct (scan_not_pattern_correct source bye 0 13 0 3
              equal_to identity identity Hs Hp) as ([_ Hback] & _).
  apply Hback. right. exists 0. split; [simpl; lia|]. split; [lia|].
  eexists; eexists; repeat split; reflexivity.
Defined.

(** C4.  Veto correctness: for every cursor/end-marker pair and every wrapped
    scanning operation with a defined result [r] at that position,
    [scan_excluding] returns the cursor advanced by exactly one if and only
    if the wrapped operation returned the position unchanged ([r = first]);
    whenever the wrapped operation reports any advancement ([r <> first]), it
    returns the original cursor. *)
Theorem scan_excluding_veto (first last : nat) (scanner : Scanner) (r : nat) :
  scanner first last = Some r ->
  (ModuleUnit.scan_excluding first last scanner = Some (first + 1) <->
   r = first) /\
  (r <> first ->
   ModuleUnit.scan_excluding first last scanner = Some first).
Proof.
  intros Hr.
  destruct (scan_excluding_cases first last scanner r Hr) as [[E H]|[NE H]].
  - split; [|contradiction]. split; auto.
  - split; [|auto]. rewrite H. split.
    + intros Heq. injection Heq. lia.
    + contradiction.
Qed.

Lemma scan_excluding_veto_witness :
  begins_with source bye 0 13 = Some 0 /\
  ModuleUnit.scan_excluding 0 13 (begins_with source bye) = Some (0 + 1).
Proof.
  split; [reflexivity|].
  destruct (scan_excluding_veto 0 13 (begins_with source bye) 0 eq_refl)
    as [[_ Hback] _].
  apply Hback. reflexivity.
Defined.

(** C5.  Skip-until termination: on a valid range and with a wrapped scanner
    that has a result at every position of it, [scan_while_excluding]
    terminates -- [last - first] increments are always enough, and more fuel
    does not change the answer -- at a position [stop] that is not past the
    end marker.  It stopped as soon as it could: the scanner reported no
    advancement at every position before [stop], and [stop] is the end marker
    or a position at which the scanner reports advancement.  When the scanner
    reports no advancement anywhere, [stop] is the end marker. *)
Theorem scan_while_excluding_terminates
  (first last : nat) (scanner : Scanner) :
  first <= last ->
  scanner_defined scanner first last ->
  exists stop,
    (forall fuel, last - first < fuel ->
       ModuleUnit.scan_while_excluding fuel first last scanner = Some stop) /\
    first <= stop <= last /\
    (forall p, first <= p < stop -> no_advance_at scanner last p) /\
    (stop = last \/ advance_at scanner last stop) /\
    ((forall p, first <= p < last -> no_advance_at scanner last p) ->
     stop = last).
Proof.
  intros Hle Hdef.
  destruct (scan_while_excluding_spec last scanner (last - first) first
              eq_refl Hle Hdef) as (stop & Hrun & Hb & Hno & Hstop).
  exists stop. repeat match goal with |- _ /\ _ => split end; auto; try lia.
  intros Hnever. destruct Hstop as [E|Hadv]; [exact E|].
  destruct (Nat.eq_dec stop last) as [E|NE]; [exact E|].
  exfalso. apply (no_advance_advance_excl scanner last stop); auto.
  apply Hnever. lia.
Qed.

Lemma scan_while_excluding_terminates_witness :
  0 <= 13 /\
  scanner_defined (begins_with source bye) 0 13 /\
  exists stop,
    ModuleUnit.scan_while_excluding 14 0 13 (begins_with source bye)
    = Some stop /\ stop <= 13.
Proof.
  assert (Hdef : scanner_defined (begins_with source bye) 0 13).
  { intros p Hp.
    do 13 (destruct p as [|p]; [eexists; reflexivity|]). lia. }
  split; [lia|]. split; [exact Hdef|].
  destruct (scan_while_excluding_terminates 0 13 (begins_with source bye)
              (Nat.le_0_l 13) Hdef) as (stop & Hrun & Hb & _).
  exists stop. split; [apply Hrun; simpl; lia | lia].
Defined.

(** At the end of "Hello, world!" both operations return the position they
    were given. *)
Example scan_if_at_end :
  Header.scan_if source 13 13 returns_true identity = Some 13.
Proof. reflexivity. Qed.

Example scan_if_not_at_end :
  Header.scan_if_not source 13 13 returns_true identity = Some 13.
Proof. reflexivity. Qed.

(** C6, as stated, fails at the end marker: with the cursor at the end of
    "Hello, world!" (the valid, empty range [13, 13)) neither [scan_if] nor
    [scan_if_not] advances. *)
Lemma complementarity_fails_at_end :
  ~ exactly_one_advances source 13 13 returns_true identity.
Proof.
  intros [[(p & Hp & Hne) _]|[_ (p & Hp & Hne)]];
    vm_compute in Hp; injection Hp; intros <-; apply Hne; reflexivity.
Qed.

(** C6, amended.  For every valid cursor/end-marker pair that is not at its
    end marker, every unary predicate and every projection, exactly one of
    [scan_if] and [scan_if_not] advances the position, and it advances it by
    one; which of them does is decided by the predicate on the projected
    current element.  At the end marker neither advances. *)
Theorem scan_if_complementary
  {A V : Type} (src : list A) (first last : nat)
  (pred : V -> bool) (proj : A -> V) :
  valid_range src first last ->
  (first <> last ->
   exactly_one_advances src first last pred proj /\
   ((Header.scan_if src first last pred proj = Some (first + 1) /\
     Header.scan_if_not src first last pred proj = Some first) \/
    (Header.scan_if src first last pred proj = Some first /\
     Header.scan_if_not src first last pred proj = Some (first + 1)))) /\
  (first = last ->
   Header.scan_if src first last pred proj = Some first /\
   Header.scan_if_not src first last pred proj = Some first).
Proof.
  intros Hsrc. split.
  - intros NE.
    destruct (valid_range_deref src first last Hsrc NE) as [x Hx].
    unfold exactly_one_advances, advances, Header.scan_if, Header.scan_if_not.
    destruct (Nat.eqb_spec first last) as [E|_]; [contradiction|].
    rewrite Hx. simpl.
    destruct (pred (proj x)); simpl.
    + split; [left | left; auto]. split.
      * exists (first + 1). split; [reflexivity | lia].
      * intros (p & Hp & Hne). congruence.
    + split; [right | right; auto]. split.
      * intros (p & Hp & Hne). congruence.
      * exists (first + 1). split; [reflexivity | lia].
  - intros E. unfold Header.scan_if, Header.scan_if_not.
    destruct (Nat.eqb_spec first last) as [_|NE]; [auto|contradiction].
Qed.

Lemma scan_if_complementary_witness :
  valid_range source 0 13 /\ 0 <> 13 /\
  exactly_one_advances source 0 13 is_H_upper identity.
Proof.
  assert (Hs : valid_range source 0 13) by (split; simpl; lia).
  split; [exact Hs|]. split; [lia|].
  destruct (scan_if_complementary source 0 13 is_H_upper identity Hs)
    as [Hne _].
  apply Hne. lia.
Defined.

(** C7.  A pattern of zero elements always succeeds with zero advancement:
    [scan] returns the cursor it was given, whatever the source, its cursor
    and its end marker are -- in particular whether or not the source is
    empty -- both through the iterator/sentinel overload and through the
    overload taking the pattern as a range. *)
Theorem scan_empty_pattern
  {A B V1 V2 : Type} (src : list A) (pat : list B)
  (first1 last1 first2 : nat)
  (pred : V1 -> V2 -> bool) (proj1 : A -> V1) (proj2 : B -> V2) :
  Header.scan_pattern src pat first1 last1 first2 first2 pred proj1 proj2
  = Some first1 /\
  Header.scan_pattern_range src first1 last1 (@nil B) pred proj1 proj2
  = Some first1.
Proof.
  unfold Header.scan_pattern_range, Header.scan_pattern, mismatch.
  simpl. rewrite !Nat.eqb_refl, !andb_false_r. simpl.
  rewrite !Nat.eqb_refl. split; reflexivity.
Qed.

(** The bodies of the two files are the same: every overload whose
    declaration is the same in both returns the same result in both, and so
    does the body of overload (1) of [scan] when it runs. *)
Lemma header_module_bodies_agree
  {A B T V V1 V2 : Type} (src : list A) (pat : list B)
  (first last first2 last2 : nat) (value : T)
  (pred : V -> T -> bool) (proj : A -> V)
  (pred2 : V1 -> V2 -> bool) (proj1 : A -> V1) (proj2 : B -> V2)
  (upred : V -> bool) :
  (* scan *)
  Header.scan src first last value pred proj
  = ModuleUnit.scan src first last value pred proj /\
  Header.scan_pattern src pat first last first2 last2 pred2 proj1 proj2
  = ModuleUnit.scan_pattern src pat first last first2 last2
                            pred2 proj1 proj2 /\
  Header.scan_range_pattern src pat first2 last2 pred2 proj1 proj2
  = ModuleUnit.scan_range_pattern src pat first2 last2 pred2 proj1 proj2 /\
  Header.scan_pattern_range src first last pat pred2 proj1 proj2
  = ModuleUnit.scan_pattern_range src first last pat pred2 proj1 proj2 /\
  Header.scan_range_range src pat pred2 proj1 proj2
  = ModuleUnit.scan_range_range src pat pred2 proj1 proj2 /\
  (* scan_if *)
  Header.scan_if src first last upred proj
  = ModuleUnit.scan_if src first last upred proj /\
  Header.scan_if_range src upred proj
  = ModuleUnit.scan_if_range src upred proj /\
  (* scan_not *)
  Header.scan_not src first last value pred proj
  = ModuleUnit.scan_not src first last value pred proj /\
  Header.scan_not_range src value pred proj
  = ModuleUnit.scan_not_range src value pred proj /\
  Header.scan_not_pattern src pat first last first2 last2 pred2 proj1 proj2
  = ModuleUnit.scan_not_pattern src pat first last first2 last2
                                pred2 proj1 proj2 /\
  Header.scan_not_range_pattern src pat first2 last2 pred2 proj1 proj2
  = ModuleUnit.scan_not_range_pattern src pat first2 last2
                                      pred2 proj1 proj2 /\
  Header.scan_not_pattern_range src first last pat pred2 proj1 proj2
  = ModuleUnit.scan_not_pattern_range src first last pat pred2 proj1 proj2 /\
  Header.scan_not_range_range src pat pred2 proj1 proj2
  = ModuleUnit.scan_not_range_range src pat pred2 proj1 proj2 /\
  (* scan_if_not *)
  Header.scan_if_not src first last upred proj
  = ModuleUnit.scan_if_not src first last upred proj /\
  Header.scan_if_not_range src upred proj
  = ModuleUnit.scan_if_not_range src upred proj.
Proof.
  repeat match goal with |- _ /\ _ => split end; reflexivity.
Qed.

(** C8.  The header and the module unit do not compute the same results for
    [scan] with a value.  Through the header's [scan] object every such call
    is accepted and returns what the body computes, with [pred] given or
    defaulted, on a cursor pair or on a whole range.  Through the module
    unit's [scan] object no such call is accepted: overload (1) is not
    declared [const], so it is no candidate on the [constexpr] object;
    without [pred] it is no candidate on any object; and overload (2), which
    is [const] and forwards to (1) on [*this], cannot be instantiated.  Only
    on a copy that is not [const], with [pred] given, does the module unit
    compute what the header does.  On "Hello, world!" with the value ['H']
    the header returns the position after the first character and the
    module unit returns nothing. *)
Theorem module_scan_value_calls_ill_formed
  {A T V : Type} (object : constness) (equal : V -> T -> bool)
  (src : list A) (first last : nat) (value : T)
  (pred : option (V -> T -> bool)) (given : V -> T -> bool) (proj : A -> V) :
  (* the header *)
  Header.scan_call Header.scan_object equal src first last value pred proj
  = well_formed (Header.scan src first last value
                             (pred_or_default pred equal) proj) /\
  Header.scan_range_call object equal src value pred proj
  = well_formed (Header.scan_range src value
                                   (pred_or_default pred equal) proj) /\
  (* the module unit *)
  ModuleUnit.scan_call ModuleUnit.scan_object equal src first last value
                       pred proj
  = ill_formed /\
  ModuleUnit.scan_call object equal src first last value None proj
  = ill_formed /\
  ModuleUnit.scan_range_call object equal src value pred proj
  = ill_formed /\
  ModuleUnit.scan_call non_const_object equal src first last value
                       (Some given) proj
  = Header.scan_call non_const_object equal src first last value
                     (Some given) proj /\
  (* "Hello, world!" and ['H'] *)
  Header.scan_call Header.scan_object equal_to source 0 13 "H"%char
                   None identity
  = well_formed (Some 1) /\
  ModuleUnit.scan_call ModuleUnit.scan_object equal_to source 0 13 "H"%char
                       None identity
  = ill_formed /\
  Header.scan_range_call Header.scan_object equal_to source "H"%char
                         None identity
  = well_formed (Some 1) /\
  ModuleUnit.scan_range_call ModuleUnit.scan_object equal_to source "H"%char
                             None identity
  = ill_formed.
Proof.
  repeat match goal with |- _ /\ _ => split end;
    try reflexivity;
    destruct pred; try reflexivity;
    destruct object; reflexivity.
Qed.

(** C9.  [scan_excluding] does not test for the end of the sequence: called
    with the cursor already at the end marker and a scanner that returns its
    input position unchanged, it returns [first + 1], one step past the end
    marker, and not the position it was given. *)
Theorem scan_excluding_at_end (first : nat) (scanner : Scanner) :
  scanner first first = Some first ->
  ModuleUnit.scan_excluding first first scanner = Some (first + 1) /\
  first < first + 1 /\
  ModuleUnit.scan_excluding first first scanner <> Some first.
Proof.
  intros Hr. unfold ModuleUnit.scan_excluding.
  rewrite Hr. simpl. rewrite Nat.eqb_refl. simpl.
  split; [reflexivity|]. split; [lia|].
  intros Heq. injection Heq. lia.
Qed.

Lemma scan_excluding_at_end_witness :
  begins_with source hello 13 13 = Some 13 /\
  ModuleUnit.scan_excluding 13 13 (begins_with source hello) = Some 14.
Proof.
  split; [reflexivity|].
  apply (scan_excluding_at_end 13 (begins_with source hello) eq_refl).
Defined.

(** C10.  [scan_not], pattern form, on an empty source ([first1 == last1])
    and a non-empty pattern, in the header and in the module unit: the
    mismatch search returns at once with [in2 = first2 <> last2], and with no
    test that the source has an element [first1 + 1] is returned, one step
    past the end marker of the empty source. *)
Theorem scan_not_pattern_empty_source
  {A B V1 V2 : Type} (src : list A) (pat : list B)
  (first1 first2 last2 : nat)
  (pred : V1 -> V2 -> bool) (proj1 : A -> V1) (proj2 : B -> V2) :
  first2 <> last2 ->
  mismatch src pat first1 first1 first2 last2 pred proj1 proj2
  = Some (mk_in_in first1 first2) /\
  Header.scan_not_pattern src pat first1 first1 first2 last2
                          pred proj1 proj2 = Some (first1 + 1) /\
  ModuleUnit.scan_not_pattern src pat first1 first1 first2 last2
                              pred proj1 proj2 = Some (first1 + 1) /\
  first1 < first1 + 1.
Proof.
  intros Hne.
  assert (Hmis : mismatch src pat first1 first1 first2 last2 pred proj1 proj2
                 = Some (mk_in_in first1 first2)).
  { unfold mismatch. simpl. rewrite Nat.eqb_refl. reflexivity. }
  assert (Hres : Header.scan_not_pattern src pat first1 first1 first2 last2
                                         pred proj1 proj2
                 = Some (first1 + 1)).
  { unfold Header.scan_not_pattern. rewrite Hmis. simpl.
    destruct (Nat.eqb_spec first2 last2) as [E|_]; [contradiction|].
    reflexivity. }
  split; [exact Hmis|]. split; [exact Hres|]. split; [exact Hres|]. lia.
Qed.

Lemma scan_not_pattern_empty_source_witness :
  0 <> 3 /\
  Header.scan_not_pattern (@nil ascii) bye 0 0 0 3 equal_to identity identity
  = Some 1.
Proof.
  split; [lia|].
  apply (scan_not_pattern_empty_source (@nil ascii) bye 0 0 3
           equal_to identity identity).
  lia.
Defined.

(** * Further properties of the code *)

(** ** The single-element forms *)

(** X1.  Single step on match: on a valid range each of the four
    single-element operations returns either the position it was given or
    that position plus one, and it returns the latter exactly when its match
    condition holds. *)
Theorem value_forms_single_step
  {A T V : Type} (src : list A) (first last : nat) (value : T)
  (pred : V -> T -> bool) (proj : A -> V) (upred : V -> bool) :
  valid_range src first last ->
  (Header.scan src first last value pred proj = Some (first + 1) <->
   value_matches src first last value pred proj) /\
  (Header.scan_if src first last upred proj = Some (first + 1) <->
   pred_holds src first last upred proj) /\
  (Header.scan_not src first last value pred proj = Some (first + 1) <->
   value_differs src first last value pred proj) /\
  (Header.scan_if_not src first last upred proj = Some (first + 1) <->
   pred_fails src first last upred proj) /\
  (forall p,
     Header.scan src first last value pred proj = Some p \/
     Header.scan_if src first last upred proj = Some p \/
     Header.scan_not src first last value pred proj = Some p \/
     Header.scan_if_not src first last upred proj = Some p ->
     p = first \/ p = first + 1).
Proof.
  intros Hsrc.
  pose proof (scan_cases src first last Hsrc value pred proj) as Hscan.
  pose proof (scan_if_cases src first last Hsrc upred proj) as Hif.
  pose proof (scan_not_cases src first last Hsrc value pred proj) as Hnot.
  pose proof (scan_if_not_cases src first last Hsrc upred proj) as Hifnot.
  assert (Hstep : forall (P : Prop) (r : option nat),
            (P /\ r = Some (first + 1)) \/ (~ P /\ r = Some first) ->
            (r = Some (first + 1) <-> P) /\
            (forall p, r = Some p -> p = first \/ p = first + 1)).
  { intros P r [[HP Hr]|[HP Hr]]; rewrite Hr; split.
    - split; auto.
    - intros p Hp. injection Hp. auto.
    - split; [|contradiction]. intros Heq. injection Heq. lia.
    - intros p Hp. injection Hp. auto. }
  apply Hstep in Hscan, Hif, Hnot, Hifnot.
  destruct Hscan as [H1 B1], Hif as [H2 B2], Hnot as [H3 B3],
           Hifnot as [H4 B4].
  repeat match goal with |- _ /\ _ => split end; auto.
  intros p [Hp|[Hp|[Hp|Hp]]]; auto.
Qed.

Lemma value_forms_single_step_witness :
  valid_range source 0 13 /\
  Header.scan source 0 13 "H"%char equal_to identity = Some (0 + 1).
Proof.
  assert (Hs : valid_range source 0 13) by (split; simpl; lia).
  split; [exact Hs|].
  destruct (value_forms_single_step source 0 13 "H"%char equal_to identity
              returns_true Hs) as ([_ Hback] & _).
  apply Hback. split; [lia|]. eexists. split; reflexivity.
Defined.

(** X2.  On a valid range the single-element operations and the pattern form
    of [scan] never return a position before the cursor or past the end
    marker. *)
Theorem scan_results_within_range
  {A B T V V1 V2 : Type} (src : list A) (pat : list B)
  (first last first2 last2 : nat) (value : T)
  (pred : V -> T -> bool) (proj : A -> V) (upred : V -> bool)
  (pred2 : V1 -> V2 -> bool) (proj1 : A -> V1) (proj2 : B -> V2) :
  valid_range src first last ->
  valid_range pat first2 last2 ->
  forall p,
    Header.scan src first last value pred proj = Some p \/
    Header.scan_if src first last upred proj = Some p \/
    Header.scan_not src first last value pred proj = Some p \/
    Header.scan_if_not src first last upred proj = Some p \/
    Header.scan_pattern src pat first last first2 last2 pred2 proj1 proj2
    = Some p ->
    first <= p <= last.
Proof.
  intros Hsrc Hpat p.
  pose proof (scan_cases src first last Hsrc value pred proj) as Hscan.
  pose proof (scan_if_cases src first last Hsrc upred proj) as Hif.
  pose proof (scan_not_cases src first last Hsrc value pred proj) as Hnot.
  pose proof (scan_if_not_cases src first last Hsrc upred proj) as Hifnot.
  destruct Hsrc as [Hle Hlen].
  assert (Hstep : forall (P : Prop) (r : option nat),
            (P -> first <> last) ->
            (P /\ r = Some (first + 1)) \/ (~ P /\ r = Some first) ->
            r = Some p -> first <= p <= last).
  { intros P r Hne [[HP Hr]|[HP Hr]] Hp; rewrite Hr in Hp; injection Hp.
    - specialize (Hne HP). lia.
    - lia. }
  intros [Hp|[Hp|[Hp|[Hp|Hp]]]].
  - apply (Hstep _ _ (fun H => match H with conj ne _ => ne end) Hscan Hp).
  - apply (Hstep _ _ (fun H => match H with conj ne _ => ne end) Hif Hp).
  - apply (Hstep _ _ (fun H => match H with conj ne _ => ne end) Hnot Hp).
  - apply (Hstep _ _ (fun H => match H with conj ne _ => ne end) Hifnot Hp).
  - rewrite (scan_pattern_eq src pat pred2 proj1 proj2
               first last first2 last2 (conj Hle Hlen) Hpat) in Hp.
    injection Hp as <-.
    destruct (prefix_matchesb src pat pred2 proj1 proj2
                              first last first2 last2) eqn:Hb; [|lia].
    apply prefix_matchesb_iff in Hb. destruct Hb as [HN _]. lia.
Qed.

Lemma scan_results_within_range_witness :
  valid_range source 0 13 /\ valid_range hello 0 5 /\ 0 <= 5 <= 13.
Proof.
  assert (Hs : valid_range source 0 13) by (split; simpl; lia).
  assert (Hp : valid_range hello 0 5) by (split; simpl; lia).
  split; [exact Hs|]. split; [exact Hp|].
  apply (scan_results_within_range source hello 0 13 0 5 "H"%char
           equal_to identity returns_true equal_to identity identity
           Hs Hp 5).
  right. right. right. right. reflexivity.
Defined.

(** X3.  [scan] and [scan_not] with a value are complementary where there is
    an element: on a valid range that is not at its end marker exactly one
    of them advances, by one; at the end marker both return the cursor. *)
Theorem scan_scan_not_complementary
  {A T V : Type} (src : list A) (first last : nat) (value : T)
  (pred : V -> T -> bool) (proj : A -> V) :
  valid_range src first last ->
  (first <> last ->
   (Header.scan src first last value pred proj = Some (first + 1) /\
    Header.scan_not src first last value pred proj = Some first) \/
   (Header.scan src first last value pred proj = Some first /\
    Header.scan_not src first last value pred proj = Some (first + 1))) /\
  (first = last ->
   Header.scan src first last value pred proj = Some first /\
   Header.scan_not src first last value pred proj = Some first).
Proof.
  intros Hsrc. unfold Header.scan, Header.scan_not. split.
  - intros NE. destruct (valid_range_deref src first last Hsrc NE) as [x Hx].
    destruct (Nat.eqb_spec first last) as [E|_]; [contradiction|].
    rewrite Hx. simpl. destruct (pred (proj x) value); simpl; auto.
  - intros E. destruct (Nat.eqb_spec first last) as [_|NE];
      [auto|contradiction].
Qed.

Lemma scan_scan_not_complementary_witness :
  valid_range source 0 13 /\ 0 <> 13 /\
  Header.scan source 0 13 "B"%char equal_to identity = Some 0 /\
  Header.scan_not source 0 13 "B"%char equal_to identity = Some (0 + 1).
Proof.
  assert (Hs : valid_range source 0 13) by (split; simpl; lia).
  split; [exact Hs|]. split; [lia|].
  destruct (scan_scan_not_complementary source 0 13 "B"%char
              equal_to identity Hs) as [Hne _].
  destruct Hne as [[H _]|H]; [lia | discriminate H | exact H].
Defined.

(** X4.  The pattern forms of [scan] and [scan_not] are complementary for a
    non-empty pattern: on valid ranges either [scan] advances by the length
    of the pattern and [scan_not] stays, or [scan] stays and [scan_not]
    advances by one.  For an empty pattern both return the cursor. *)
Theorem pattern_forms_complementary
  {A B V1 V2 : Type} (src : list A) (pat : list B)
  (first1 last1 first2 last2 : nat)
  (pred : V1 -> V2 -> bool) (proj1 : A -> V1) (proj2 : B -> V2) :
  valid_range src first1 last1 ->
  valid_range pat first2 last2 ->
  ((Header.scan_pattern src pat first1 last1 first2 last2 pred proj1 proj2
    = Some (first1 + (last2 - first2)) /\
    Header.scan_not_pattern src pat first1 last1 first2 last2
                            pred proj1 proj2 = Some first1) \/
   (Header.scan_pattern src pat first1 last1 first2 last2 pred proj1 proj2
    = Some first1 /\
    Header.scan_not_pattern src pat first1 last1 first2 last2
                            pred proj1 proj2 = Some (first1 + 1))) /\
  (first2 = last2 ->
   Header.scan_pattern src pat first1 last1 first2 last2 pred proj1 proj2
   = Some first1 /\
   Header.scan_not_pattern src pat first1 last1 first2 last2
                           pred proj1 proj2 = Some first1).
Proof.
  intros Hsrc Hpat.
  rewrite (scan_pattern_eq src pat pred proj1 proj2
             first1 last1 first2 last2 Hsrc Hpat).
  rewrite (scan_not_pattern_eq src pat pred proj1 proj2
             first1 last1 first2 last2 Hsrc Hpat).
  destruct (prefix_matchesb src pat pred proj1 proj2
                            first1 last1 first2 last2) eqn:Hb.
  - split; [left; auto|]. intros E. split; [f_equal; lia | reflexivity].
  - split; [right; auto|]. intros E. exfalso.
    assert (Hm : prefix_matches src pat pred proj1 proj2
                                first1 last1 first2 last2).
    { split; [lia|]. intros k Hk. lia. }
    apply prefix_matchesb_iff in Hm. congruence.
Qed.

Lemma pattern_forms_complementary_witness :
  valid_range source 0 13 /\ valid_range bye 0 3 /\
  Header.scan_pattern source bye 0 13 0 3 equal_to identity identity
  = Some 0 /\
  Header.scan_not_pattern source bye 0 13 0 3 equal_to identity identity
  = Some (0 + 1).
Proof.
  assert (Hs : valid_range source 0 13) by (split; simpl; lia).
  assert (Hp : valid_range bye 0 3) by (split; simpl; lia).
  split; [exact Hs|]. split; [exact Hp|].
  destruct (pattern_forms_complementary source bye 0 13 0 3
              equal_to identity identity Hs Hp) as [[[H _]|H] _].
  - discriminate H.
  - exact H.
Defined.

(** ** A pattern of one element *)

(** Whatever the ranges, the mismatch loop leaves both cursors advanced by
    the same number of steps. *)
Lemma mismatch_loop_offsets
  {A B V1 V2 : Type} (src : list A) (pat : list B)
  (pred : V1 -> V2 -> bool) (proj1 : A -> V1) (proj2 : B -> V2)
  (fuel : nat) :
  forall first1 last1 first2 last2 ends,
    mismatch_loop src pat fuel first1 last1 first2 last2 pred proj1 proj2
    = Some ends ->
    exists n, in1 ends = first1 + n /\ in2 ends = first2 + n.
Proof.
  induction fuel as [|fuel IH]; intros f1 l1 f2 l2 ends; simpl;
    [discriminate|].
  destruct (negb (f1 =? l1) && negb (f2 =? l2)).
  - destruct (deref src f1) as [x|]; [|discriminate]. simpl.
    destruct (deref pat f2) as [y|]; [|discriminate]. simpl.
    destruct (negb (pred (proj1 x) (proj2 y))).
    + intros H. injection H as <-. exists 0. simpl. split; lia.
    + intros H. apply IH in H. destruct H as (n & H1 & H2).
      exists (S n). split; lia.
  - intros H. injection H as <-. exists 0. simpl. split; lia.
Qed.

(** X5.  [scan] with a pattern of one element is [scan] with that element as
    the value (seen through the pattern's projection): the two overloads
    return the same result on every input, valid or not. *)
Theorem scan_pattern_singleton
  {A B V1 V2 : Type} (src : list A) (first last : nat) (v : B)
  (pred : V1 -> V2 -> bool) (proj1 : A -> V1) (proj2 : B -> V2) :
  Header.scan_pattern_range src first last [v] pred proj1 proj2
  = Header.scan src first last (proj2 v) pred proj1.
Proof.
  unfold Header.scan_pattern_range, Header.scan_pattern, Header.scan,
    mismatch, begin, end_.
  simpl.
  destruct (Nat.eqb_spec first last) as [E|NE]; simpl; [reflexivity|].
  destruct (deref src first) as [x|] eqn:Hx; simpl; [|reflexivity].
  destruct (pred (proj1 x) (proj2 v)); simpl; [|reflexivity].
  apply deref_some_lt in Hx.
  destruct (length src - first) as [|n] eqn:Hn; [lia|]. simpl.
  rewrite andb_false_r. reflexivity.
Qed.

(** X6.  For [scan_not] the two overloads agree only where the source has an
    element: with the cursor not at the end marker the pattern form on a
    one-element pattern is the value form, but at the end marker the value
    form returns the cursor and the pattern form returns the cursor plus
    one. *)
Theorem scan_not_pattern_singleton
  {A B V1 V2 : Type} (src : list A) (first last : nat) (v : B)
  (pred : V1 -> V2 -> bool) (proj1 : A -> V1) (proj2 : B -> V2) :
  (first <> last ->
   Header.scan_not_pattern_range src first last [v] pred proj1 proj2
   = Header.scan_not src first last (proj2 v) pred proj1) /\
  (first = last ->
   Header.scan_not_pattern_range src first last [v] pred proj1 proj2
   = Some (first + 1) /\
   Header.scan_not src first last (proj2 v) pred proj1 = Some first).
Proof.
  unfold Header.scan_not_pattern_range, Header.scan_not_pattern,
    Header.scan_not, mismatch, begin, end_.
  simpl. split.
  - intros NE. destruct (Nat.eqb_spec first last) as [E|_];
      [contradiction|]. simpl.
    destruct (deref src first) as [x|] eqn:Hx; simpl; [|reflexivity].
    destruct (pred (proj1 x) (proj2 v)); simpl; [|reflexivity].
    apply deref_some_lt in Hx.
    destruct (length src - first) as [|n] eqn:Hn; [lia|]. simpl.
    rewrite andb_false_r. reflexivity.
  - intros E. destruct (Nat.eqb_spec first last) as [_|NE];
      [|contradiction]. simpl. auto.
Qed.

Lemma scan_not_pattern_singleton_witness :
  0 <> 13 /\
  Header.scan_not_pattern_range source 0 13 ["B"%char]
                                equal_to identity identity
  = Header.scan_not source 0 13 (identity "B"%char) equal_to identity.
Proof.
  split; [lia|].
  destruct (scan_not_pattern_singleton source 0 13 "B"%char
              equal_to identity identity) as [Hne _].
  apply Hne. lia.
Defined.

(** ** [scan_excluding] over the scan operations *)

(** X7.  Where the source has an element, excluding a single-element scan is
    the negated scan: [scan_excluding] over [scan] is [scan_not], over
    [scan_not] it is [scan], over [scan_if] it is [scan_if_not] and over
    [scan_if_not] it is [scan_if].  At the end marker they part:
    [scan_excluding] returns the cursor plus one, the negated scan the
    cursor. *)
Theorem scan_excluding_negates
  {A T V : Type} (src : list A) (first last : nat) (value : T)
  (pred : V -> T -> bool) (proj : A -> V) (upred : V -> bool) :
  (first <> last ->
   ModuleUnit.scan_excluding first last
     (fun f l => ModuleUnit.scan src f l value pred proj)
   = ModuleUnit.scan_not src first last value pred proj /\
   ModuleUnit.scan_excluding first last
     (fun f l => ModuleUnit.scan_not src f l value pred proj)
   = ModuleUnit.scan src first last value pred proj /\
   ModuleUnit.scan_excluding first last
     (fun f l => ModuleUnit.scan_if src f l upred proj)
   = ModuleUnit.scan_if_not src first last upred proj /\
   ModuleUnit.scan_excluding first last
     (fun f l => ModuleUnit.scan_if_not src f l upred proj)
   = ModuleUnit.scan_if src first last upred proj) /\
  (first = last ->
   ModuleUnit.scan_excluding first last
     (fun f l => ModuleUnit.scan src f l value pred proj)
   = Some (first + 1) /\
   ModuleUnit.scan_not src first last value pred proj = Some first /\
   ModuleUnit.scan_excluding first last
     (fun f l => ModuleUnit.scan_if src f l upred proj)
   = Some (first + 1) /\
   ModuleUnit.scan_if_not src first last upred proj = Some first).
Proof.
  unfold ModuleUnit.scan_excluding, ModuleUnit.scan, ModuleUnit.scan_not,
    ModuleUnit.scan_if, ModuleUnit.scan_if_not.
  assert (Hs : (first + 1 =? first) = false) by (apply Nat.eqb_neq; lia).
  split.
  - intros NE. destruct (Nat.eqb_spec first last) as [E|_];
      [contradiction|].
    destruct (deref src first) as [x|]; simpl; [|auto].
    destruct (pred (proj x) value), (upred (proj x)); simpl;
      rewrite ?Nat.eqb_refl, ?Hs; simpl; auto.
  - intros E. destruct (Nat.eqb_spec first last) as [_|NE];
      [|contradiction].
    simpl. rewrite Nat.eqb_refl. simpl. auto.
Qed.

Lemma scan_excluding_negates_witness :
  0 <> 13 /\
  ModuleUnit.scan_excluding 0 13
    (fun f l => ModuleUnit.scan source f l "B"%char equal_to identity)
  = ModuleUnit.scan_not source 0 13 "B"%char equal_to identity.
Proof.
  split; [lia|].
  destruct (scan_excluding_negates source 0 13 "B"%char equal_to identity
              returns_true) as [Hne _].
  apply Hne. lia.
Defined.

(** X8.  Excluding a pattern scan: for a non-empty pattern
    ([first2 <> last2]) [scan_excluding] over the pattern form of [scan] is
    the pattern form of [scan_not], on every input.  For an empty pattern it
    is not: the scan matches with no advancement, which [scan_excluding]
    takes for no match and answers with the cursor plus one, while
    [scan_not] returns the cursor. *)
Theorem scan_excluding_pattern
  {A B V1 V2 : Type} (src : list A) (pat : list B)
  (first1 last1 first2 last2 : nat)
  (pred : V1 -> V2 -> bool) (proj1 : A -> V1) (proj2 : B -> V2) :
  (first2 <> last2 ->
   ModuleUnit.scan_excluding first1 last1
     (fun f l => ModuleUnit.scan_pattern src pat f l first2 last2
                                         pred proj1 proj2)
   = ModuleUnit.scan_not_pattern src pat first1 last1 first2 last2
                                 pred proj1 proj2) /\
  (first2 = last2 ->
   ModuleUnit.scan_excluding first1 last1
     (fun f l => ModuleUnit.scan_pattern src pat f l first2 last2
                                         pred proj1 proj2)
   = Some (first1 + 1) /\
   ModuleUnit.scan_not_pattern src pat first1 last1 first2 last2
                               pred proj1 proj2 = Some first1).
Proof.
  unfold ModuleUnit.scan_excluding, ModuleUnit.scan_pattern,
    ModuleUnit.scan_not_pattern.
  split.
  - intros NE. unfold mismatch.
    destruct (mismatch_loop src pat (S (length src - first1))
                first1 last1 first2 last2 pred proj1 proj2)
      as [ends|] eqn:Hm; simpl; [|reflexivity].
    apply mismatch_loop_offsets in Hm. destruct Hm as (n & H1 & H2).
    destruct (Nat.eqb_spec (in2 ends) last2) as [E|NE2]; simpl.
    + destruct (Nat.eqb_spec (in1 ends) first1) as [E1|_]; simpl;
        [lia | reflexivity].
    + rewrite Nat.eqb_refl. reflexivity.
  - intros E. subst last2. unfold mismatch. simpl.
    rewrite !Nat.eqb_refl, !andb_false_r. simpl.
    rewrite !Nat.eqb_refl. simpl. rewrite Nat.eqb_refl. simpl. auto.
Qed.

Lemma scan_excluding_pattern_witness :
  0 <> 5 /\
  ModuleUnit.scan_excluding 0 13
    (fun f l => ModuleUnit.scan_pattern source hello f l 0 5
                                        equal_to identity identity)
  = ModuleUnit.scan_not_pattern source hello 0 13 0 5
                                equal_to identity identity.
Proof.
  split; [lia|].
  destruct (scan_excluding_pattern source hello 0 13 0 5
              equal_to identity identity) as [Hne _].
  apply Hne. lia.
Defined.

(** ** [scan_while_excluding] as a search *)

(** The position at which the loop stops is determined by the scanner: it is
    the only position of the range that is the end marker or a position of
    advancement and has no advancement before it. *)
Lemma stop_position_unique (scanner : Scanner) (last p stop stop' : nat) :
  p <= stop <= last -> p <= stop' <= last ->
  (forall q, p <= q < stop -> no_advance_at scanner last q) ->
  (forall q, p <= q < stop' -> no_advance_at scanner last q) ->
  (stop = last \/ advance_at scanner last stop) ->
  (stop' = last \/ advance_at scanner last stop') ->
  stop' = stop.
Proof.
  intros Hb Hb' Hno Hno' Hstop Hstop'.
  destruct (Nat.lt_trichotomy stop' stop) as [Hlt|[E|Hgt]]; [|exact E|].
  - exfalso. destruct Hstop' as [E|Hadv]; [lia|].
    apply (no_advance_advance_excl scanner last stop'); auto.
    apply Hno. lia.
  - exfalso. destruct Hstop as [E|Hadv]; [lia|].
    apply (no_advance_advance_excl scanner last stop); auto.
    apply Hno'. lia.
Qed.

Lemma scan_while_excluding_never_advances
  (first last : nat) (scanner : Scanner) :
  first <= last ->
  (forall p, first <= p < last -> scanner p last = Some p) ->
  forall fuel, last - first < fuel ->
    ModuleUnit.scan_while_excluding fuel first last scanner = Some last.
Proof.
  intros Hle Hnever fuel Hfuel.
  assert (Hdef : scanner_defined scanner first last).
  { intros p Hp. exists p. apply Hnever, Hp. }
  destruct (scan_while_excluding_spec last scanner (last - first) first
              eq_refl Hle Hdef) as (stop & Hrun & Hb & Hno & Hstop).
  rewrite (Hrun fuel Hfuel). f_equal.
  destruct Hstop as [E|Hadv]; [exact E|].
  destruct (Nat.eq_dec stop last) as [E|NE]; [exact E|].
  exfalso. apply (no_advance_advance_excl scanner last stop); auto.
  apply Hnever. lia.
Qed.

(** X9.  [scan_while_excluding] over [scan_if] is a search for the first
    element that satisfies the predicate: on a valid range it stops at a
    position of the range before which every projected element fails the
    predicate, and which is the end marker or holds an element that
    satisfies it. *)
Theorem scan_while_excluding_finds_if
  {A V : Type} (src : list A) (first last : nat)
  (upred : V -> bool) (proj : A -> V) :
  valid_range src first last ->
  exists stop,
    (forall fuel, last - first < fuel ->
       ModuleUnit.scan_while_excluding fuel first last
         (fun f l => ModuleUnit.scan_if src f l upred proj) = Some stop) /\
    first <= stop <= last /\
    (forall p, first <= p < stop ->
       exists x, deref src p = Some x /\ upred (proj x) = false) /\
    (stop = last \/
     exists x, deref src stop = Some x /\ upred (proj x) = true).
Proof.
  intros [Hle Hlen].
  set (scanner := fun f l => ModuleUnit.scan_if src f l upred proj).
  assert (Hcases : forall p, first <= p <= last ->
            (pred_holds src p last upred proj /\
             scanner p last = Some (p + 1)) \/
            (~ pred_holds src p last upred proj /\
             scanner p last = Some p)).
  { intros p Hp. apply (scan_if_cases src p last). split; lia. }
  assert (Hdef : scanner_defined scanner first last).
  { intros p Hp. destruct (Hcases p) as [[_ H]|[_ H]]; [lia| |]; eauto. }
  destruct (scan_while_excluding_spec last scanner (last - first) first
              eq_refl Hle Hdef) as (stop & Hrun & Hb & Hno & Hstop).
  exists stop. split; [exact Hrun|]. split; [exact Hb|]. split.
  - intros p Hp. specialize (Hno p Hp). unfold no_advance_at in Hno.
    destruct (valid_range_deref src p last) as [x Hx];
      [split; lia | lia |].
    exists x. split; [exact Hx|].
    destruct (upred (proj x)) eqn:Hu; [|reflexivity].
    destruct (Hcases p) as [[_ H]|[Hn _]]; [lia| |].
    + rewrite H in Hno. injection Hno. lia.
    + exfalso. apply Hn. split; [lia|]. exists x. auto.
  - destruct Hstop as [E|(r & Hr & Hne)]; [now left|]. right.
    destruct (Hcases stop) as [[[_ Hx] _]|[_ H]]; [lia| |].
    + exact Hx.
    + rewrite H in Hr. injection Hr. intros <-. contradiction.
Qed.

Lemma scan_while_excluding_finds_if_witness :
  valid_range source 0 13 /\
  exists stop,
    ModuleUnit.scan_while_excluding 14 0 13
      (fun f l => ModuleUnit.scan_if source f l
                    (fun c => Ascii.eqb c ","%char) identity)
    = Some stop /\ stop <= 13.
Proof.
  assert (Hs : valid_range source 0 13) by (split; simpl; lia).
  split; [exact Hs|].
  destruct (scan_while_excluding_finds_if source 0 13
              (fun c => Ascii.eqb c ","%char) identity Hs)
    as (stop & Hrun & Hb & _).
  exists stop. split; [apply Hrun; simpl; lia | lia].
Defined.

(** X10.  [scan_while_excluding] over [scan] with a non-empty pattern is a
    search for the first occurrence of the pattern: on a valid range it
    stops at a position before which the pattern matches nowhere, and which
    is the end marker or a position at which the whole pattern matches
    within the range. *)
Theorem scan_while_excluding_finds_pattern
  {A B V1 V2 : Type} (src : list A) (pat : list B) (first last : nat)
  (pred : V1 -> V2 -> bool) (proj1 : A -> V1) (proj2 : B -> V2) :
  valid_range src first last ->
  pat <> [] ->
  exists stop,
    (forall fuel, last - first < fuel ->
       ModuleUnit.scan_while_excluding fuel first last
         (fun f l => ModuleUnit.scan_pattern_range src f l pat
                                                   pred proj1 proj2)
       = Some stop) /\
    first <= stop <= last /\
    (forall p, first <= p < stop ->
       ~ prefix_matches src pat pred proj1 proj2 p last 0 (length pat)) /\
    (stop = last \/
     prefix_matches src pat pred proj1 proj2 stop last 0 (length pat)).
Proof.
  intros [Hle Hlen] Hpat.
  assert (HN : 0 < length pat) by (destruct pat; [congruence | simpl; lia]).
  set (scanner := fun f l => ModuleUnit.scan_pattern_range src f l pat
                                                           pred proj1 proj2).
  assert (Hsc : forall p, first <= p <= last ->
            scanner p last
            = Some (if prefix_matchesb src pat pred proj1 proj2
                                       p last 0 (length pat)
                    then p + (length pat - 0) else p)).
  { intros p Hp.
    apply (scan_pattern_eq src pat pred proj1 proj2 p last 0 (length pat)).
    - split; lia.
    - split; lia. }
  assert (Hdef : scanner_defined scanner first last).
  { intros p Hp. rewrite Hsc by lia. eauto. }
  destruct (scan_while_excluding_spec last scanner (last - first) first
              eq_refl Hle Hdef) as (stop & Hrun & Hb & Hno & Hstop).
  exists stop. split; [exact Hrun|]. split; [exact Hb|]. split.
  - intros p Hp Hm. specialize (Hno p Hp). unfold no_advance_at in Hno.
    rewrite Hsc in Hno by lia.
    apply prefix_matchesb_iff in Hm. rewrite Hm in Hno.
    injection Hno. lia.
  - destruct Hstop as [E|(r & Hr & Hne)]; [now left|]. right.
    rewrite Hsc in Hr by lia. apply prefix_matchesb_iff.
    destruct (prefix_matchesb src pat pred proj1 proj2
                              stop last 0 (length pat)); [reflexivity|].
    injection Hr. intros <-. contradiction.
Qed.

Lemma scan_while_excluding_finds_pattern_witness :
  valid_range source 0 13 /\ chars "world" <> [] /\
  exists stop,
    ModuleUnit.scan_while_excluding 14 0 13
      (fun f l => ModuleUnit.scan_pattern_range source f l (chars "world")
                    equal_to identity identity)
    = Some stop /\ stop <= 13.
Proof.
  assert (Hs : valid_range source 0 13) by (split; simpl; lia).
  assert (Hp : chars "world" <> []) by discriminate.
  split; [exact Hs|]. split; [exact Hp|].
  destruct (scan_while_excluding_finds_pattern source (chars "world") 0 13
              equal_to identity identity Hs Hp)
    as (stop & Hrun & Hb & _).
  exists stop. split; [apply Hrun; simpl; lia | lia].
Defined.

(** X11.  With an empty pattern the search finds nothing: [scan] matches the
    empty pattern everywhere but never advances, so [scan_while_excluding]
    over it skips the whole range and returns the end marker. *)
Theorem scan_while_excluding_empty_pattern
  {A B V1 V2 : Type} (src : list A) (first last : nat)
  (pred : V1 -> V2 -> bool) (proj1 : A -> V1) (proj2 : B -> V2) :
  first <= last ->
  forall fuel, last - first < fuel ->
    ModuleUnit.scan_while_excluding fuel first last
      (fun f l => ModuleUnit.scan_pattern_range src f l (@nil B)
                                                pred proj1 proj2)
    = Some last.
Proof.
  intros Hle. apply scan_while_excluding_never_advances; [exact Hle|].
  intros p _.
  unfold ModuleUnit.scan_pattern_range, ModuleUnit.scan_pattern, mismatch.
  simpl. rewrite andb_false_r. reflexivity.
Qed.

Lemma scan_while_excluding_empty_pattern_witness :
  0 <= 13 /\ 13 - 0 < 14 /\
  ModuleUnit.scan_while_excluding 14 0 13
    (fun f l => ModuleUnit.scan_pattern_range source f l (@nil ascii)
                  equal_to identity identity)
  = Some 13.
Proof.
  split; [lia|]. split; [simpl; lia|].
  apply (scan_while_excluding_empty_pattern source 0 13
           equal_to identity identity (Nat.le_0_l 13) 14).
  simpl. lia.
Defined.

(** X12.  Restarting the search changes nothing: when [scan_while_excluding]
    stops at [stop], running it again from any position between the cursor
    and [stop] -- in particular from [stop] itself -- stops at [stop]
    too. *)
Theorem scan_while_excluding_restart
  (first last stop : nat) (scanner : Scanner) :
  first <= last ->
  scanner_defined scanner first last ->
  ModuleUnit.scan_while_excluding (S (last - first)) first last scanner
  = Some stop ->
  forall p, first <= p <= stop ->
    forall fuel, last - p < fuel ->
      ModuleUnit.scan_while_excluding fuel p last scanner = Some stop.
Proof.
  intros Hle Hdef Hres p Hp fuel Hfuel.
  destruct (scan_while_excluding_spec last scanner (last - first) first
              eq_refl Hle Hdef) as (stop0 & Hrun & Hb & Hno & Hstop).
  rewrite (Hrun (S (last - first))) in Hres by lia.
  injection Hres as ->.
  assert (Hdefp : scanner_defined scanner p last).
  { intros q Hq. apply Hdef. lia. }
  destruct (scan_while_excluding_spec last scanner (last - p) p
              eq_refl ltac:(lia) Hdefp)
    as (stop' & Hrun' & Hb' & Hno' & Hstop').
  rewrite (Hrun' fuel Hfuel). f_equal.
  apply (stop_position_unique scanner last p stop stop'); auto; try lia.
  intros q Hq. apply Hno. lia.
Qed.

Lemma scan_while_excluding_restart_witness :
  0 <= 13 /\
  scanner_defined (begins_with source (chars "world")) 0 13 /\
  ModuleUnit.scan_while_excluding (S (13 - 0)) 0 13
    (begins_with source (chars "world")) = Some 7 /\
  0 <= 7 <= 7 /\ 13 - 7 < 7 /\
  ModuleUnit.scan_while_excluding 7 7 13
    (begins_with source (chars "world")) = Some 7.
Proof.
  assert (Hdef : scanner_defined (begins_with source (chars "world")) 0 13).
  { intros p Hp.
    do 13 (destruct p as [|p]; [eexists; reflexivity|]). lia. }
  split; [lia|]. split; [exact Hdef|]. split; [reflexivity|].
  split; [lia|]. split; [simpl; lia|].
  apply (scan_while_excluding_restart 0 13 7
           (begins_with source (chars "world"))
           (Nat.le_0_l 13) Hdef eq_refl 7); simpl; lia.
Defined.

(** ** The overloads taking whole ranges, on lists *)

Lemma all_agree_cons
  {A B V1 V2 : Type} (pred : V1 -> V2 -> bool)
  (proj1 : A -> V1) (proj2 : B -> V2)
  (x : A) (r1 : list A) (y : B) (r2 : list B) (n : nat) :
  forall i j,
    all_agree (x :: r1) (y :: r2) pred proj1 proj2 n (S i) (S j)
    = all_agree r1 r2 pred proj1 proj2 n i j.
Proof.
  induction n as [|n IH]; intros i j; simpl; [reflexivity|].
  rewrite IH. reflexivity.
Qed.

Lemma prefix_matchesb_starts_with
  {A B V1 V2 : Type} (pred : V1 -> V2 -> bool)
  (proj1 : A -> V1) (proj2 : B -> V2) (r2 : list B) :
  forall r1 : list A,
    prefix_matchesb r1 r2 pred proj1 proj2 0 (length r1) 0 (length r2)
    = starts_with pred proj1 proj2 r1 r2.
Proof.
  unfold prefix_matchesb.
  induction r2 as [|y r2 IH]; intros r1.
  - simpl. reflexivity.
  - destruct r1 as [|x r1].
    + simpl. reflexivity.
    + specialize (IH r1). rewrite !Nat.sub_0_r in *.
      cbn [length starts_with all_agree deref nth_error].
      change (0 + 1) with 1. rewrite all_agree_cons, <- IH.
      change (S (length r2) <=? S (length r1))
        with (length r2 <=? length r1).
      destruct (length r2 <=? length r1), (pred (proj1 x) (proj2 y));
        reflexivity.
Qed.

(** X13.  What the overloads taking whole ranges compute, on lists.  With a
    value or a predicate they look at the head of the source only: the
    result is [1] when the head exists and meets the condition, [0]
    otherwise.  With a second range, [scan] returns the length of the second
    range when the source begins with it, [0] otherwise; [scan_not] returns
    [0] when the source begins with it and [1] otherwise.  None of them has
    a precondition. *)
Theorem range_overloads_on_lists
  {A B T V V1 V2 : Type} (r1 : list A) (r2 : list B) (value : T)
  (pred : V -> T -> bool) (proj : A -> V) (upred : V -> bool)
  (pred2 : V1 -> V2 -> bool) (proj1 : A -> V1) (proj2 : B -> V2) :
  Header.scan_range r1 value pred proj
  = Some (match r1 with
          | [] => 0
          | x :: _ => if pred (proj x) value then 1 else 0
          end) /\
  Header.scan_if_range r1 upred proj
  = Some (match r1 with
          | [] => 0
          | x :: _ => if upred (proj x) then 1 else 0
          end) /\
  Header.scan_not_range r1 value pred proj
  = Some (match r1 with
          | [] => 0
          | x :: _ => if pred (proj x) value then 0 else 1
          end) /\
  Header.scan_if_not_range r1 upred proj
  = Some (match r1 with
          | [] => 0
          | x :: _ => if upred (proj x) then 0 else 1
          end) /\
  Header.scan_range_range r1 r2 pred2 proj1 proj2
  = Some (if starts_with pred2 proj1 proj2 r1 r2 then length r2 else 0) /\
  Header.scan_not_range_range r1 r2 pred2 proj1 proj2
  = Some (if starts_with pred2 proj1 proj2 r1 r2 then 0 else 1).
Proof.
  repeat match goal with |- _ /\ _ => split end.
  - destruct r1 as [|x r1]; [reflexivity|].
    unfold Header.scan_range, Header.scan. simpl.
    destruct (pred (proj x) value); reflexivity.
  - destruct r1 as [|x r1]; [reflexivity|].
    unfold Header.scan_if_range, Header.scan_if. simpl.
    destruct (upred (proj x)); reflexivity.
  - destruct r1 as [|x r1]; [reflexivity|].
    unfold Header.scan_not_range, Header.scan_not. simpl.
    destruct (pred (proj x) value); reflexivity.
  - destruct r1 as [|x r1]; [reflexivity|].
    unfold Header.scan_if_not_range, Header.scan_if_not. simpl.
    destruct (upred (proj x)); reflexivity.
  - unfold Header.scan_range_range, begin, end_.
    rewrite (scan_pattern_eq r1 r2 pred2 proj1 proj2 0 (length r1)
               0 (length r2) (valid_range_whole r1) (valid_range_whole r2)).
    rewrite prefix_matchesb_starts_with, Nat.sub_0_r. reflexivity.
  - unfold Header.scan_not_range_range, begin, end_.
    rewrite (scan_not_pattern_eq r1 r2 pred2 proj1 proj2 0 (length r1)
               0 (length r2) (valid_range_whole r1) (valid_range_whole r2)).
    rewrite prefix_matchesb_starts_with. reflexivity.
Qed.

(** ** What the pattern forms read *)

Lemma all_agree_ext
  {A B V1 V2 : Type} (src src' : list A) (pat pat' : list B)
  (pred : V1 -> V2 -> bool) (proj1 : A -> V1) (proj2 : B -> V2) (n : nat) :
  forall i j,
    (forall k, k < n -> deref src (i + k) = deref src' (i + k)) ->
    (forall k, k < n -> deref pat (j + k) = deref pat' (j + k)) ->
    all_agree src pat pred proj1 proj2 n i j
    = all_agree src' pat' pred proj1 proj2 n i j.
Proof.
  induction n as [|n IH]; intros i j Hs Hp; simpl; [reflexivity|].
  pose proof (Hs 0 ltac:(lia)) as Hs0. pose proof (Hp 0 ltac:(lia)) as Hp0.
  rewrite !Nat.add_0_r in Hs0, Hp0. rewrite Hs0, Hp0.
  rewrite (IH (i + 1) (j + 1)); [reflexivity| |].
  - intros k Hk. replace (i + 1 + k) with (i + S k) by lia. apply Hs. lia.
  - intros k Hk. replace (j + 1 + k) with (j + S k) by lia. apply Hp. lia.
Qed.

(** X14.  The pattern forms read nothing outside their ranges: two sources
    that hold the same elements between the cursor and the end marker, and
    two patterns that do between theirs, give the same result, whatever the
    buffers hold (or how long they are) elsewhere. *)
Theorem pattern_forms_read_within_ranges
  {A B V1 V2 : Type} (src src' : list A) (pat pat' : list B)
  (first1 last1 first2 last2 : nat)
  (pred : V1 -> V2 -> bool) (proj1 : A -> V1) (proj2 : B -> V2) :
  valid_range src first1 last1 -> valid_range src' first1 last1 ->
  valid_range pat first2 last2 -> valid_range pat' first2 last2 ->
  (forall i, first1 <= i < last1 -> deref src i = deref src' i) ->
  (forall j, first2 <= j < last2 -> deref pat j = deref pat' j) ->
  Header.scan_pattern src pat first1 last1 first2 last2 pred proj1 proj2
  = Header.scan_pattern src' pat' first1 last1 first2 last2
                        pred proj1 proj2 /\
  Header.scan_not_pattern src pat first1 last1 first2 last2
                          pred proj1 proj2
  = Header.scan_not_pattern src' pat' first1 last1 first2 last2
                            pred proj1 proj2.
Proof.
  intros Hs Hs' Hp Hp' Hsame1 Hsame2.
  rewrite (scan_pattern_eq src pat pred proj1 proj2 _ _ _ _ Hs Hp).
  rewrite (scan_pattern_eq src' pat' pred proj1 proj2 _ _ _ _ Hs' Hp').
  rewrite (scan_not_pattern_eq src pat pred proj1 proj2 _ _ _ _ Hs Hp).
  rewrite (scan_not_pattern_eq src' pat' pred proj1 proj2 _ _ _ _ Hs' Hp').
  assert (Hb : prefix_matchesb src pat pred proj1 proj2
                               first1 last1 first2 last2
               = prefix_matchesb src' pat' pred proj1 proj2
                                 first1 last1 first2 last2).
  { unfold prefix_matchesb.
    destruct (Nat.leb_spec (last2 - first2) (last1 - first1)) as [Hle|Hgt];
      simpl; [|reflexivity].
    apply all_agree_ext.
    - intros k Hk. apply Hsame1. lia.
    - intros k Hk. apply Hsame2. lia. }
  rewrite Hb. split; reflexivity.
Qed.

Lemma pattern_forms_read_within_ranges_witness :
  valid_range source 0 5 /\ valid_range hello 0 5 /\
  Header.scan_pattern source hello 0 5 0 5 equal_to identity identity
  = Header.scan_pattern hello hello 0 5 0 5 equal_to identity identity.
Proof.
  assert (Hs : valid_range source 0 5) by (split; simpl; lia).
  assert (Hp : valid_range hello 0 5) by (split; simpl; lia).
  split; [exact Hs|]. split; [exact Hp|].
  apply (pattern_forms_read_within_ranges source hello hello hello 0 5 0 5
           equal_to identity identity Hs Hp Hp Hp).
  - intros i Hi.
    do 5 (destruct i as [|i]; [reflexivity|]). lia.
  - intros j _. reflexivity.
Defined.

(** ** Scanning two patterns in a row *)

Lemma deref_app_l {B : Type} (p q : list B) (j : nat) :
  j < length p -> deref (p ++ q) j = deref p j.
Proof.
  intros Hj. unfold deref. apply nth_error_app1, Hj.
Qed.

Lemma deref_app_r {B : Type} (p q : list B) (j : nat) :
  deref (p ++ q) (length p + j) = deref q j.
Proof.
  unfold deref. rewrite nth_error_app2 by lia. f_equal. lia.
Qed.

Lemma prefix_matches_app
  {A B V1 V2 : Type} (src : list A) (p q : list B) (first last : nat)
  (pred : V1 -> V2 -> bool) (proj1 : A -> V1) (proj2 : B -> V2) :
  prefix_matches src (p ++ q) pred proj1 proj2
                 first last 0 (length (p ++ q)) <->
  prefix_matches src p pred proj1 proj2 first last 0 (length p) /\
  prefix_matches src q pred proj1 proj2
                 (first + length p) last 0 (length q).
Proof.
  unfold prefix_matches, agree_at. rewrite length_app, !Nat.sub_0_r.
  split.
  - intros [Hlen Hall]. split; split; try lia.
    + intros k Hk. destruct (Hall k) as (x & y & Hx & Hy & Hc); [lia|].
      simpl in Hy. rewrite deref_app_l in Hy by lia.
      exists x, y. auto.
    + intros k Hk.
      destruct (Hall (length p + k)) as (x & y & Hx & Hy & Hc); [lia|].
      simpl in Hy. rewrite deref_app_r in Hy.
      rewrite Nat.add_assoc in Hx. exists x, y. auto.
  - intros [[Hlp Hp] [Hlq Hq]]. split; [lia|].
    intros k Hk. destruct (Nat.lt_ge_cases k (length p)) as [Hlt|Hge].
    + destruct (Hp k Hlt) as (x & y & Hx & Hy & Hc).
      exists x, y. simpl. rewrite deref_app_l by lia. auto.
    + destruct (Hq (k - length p)) as (x & y & Hx & Hy & Hc); [lia|].
      exists x, y. simpl in *.
      replace k with (length p + (k - length p)) at 2 by lia.
      rewrite deref_app_r.
      replace (first + k) with (first + length p + (k - length p)) by lia.
      auto.
Qed.

Lemma scan_pattern_range_full_iff
  {A B V1 V2 : Type} (src : list A) (r : list B) (first last : nat)
  (pred : V1 -> V2 -> bool) (proj1 : A -> V1) (proj2 : B -> V2) :
  valid_range src first last ->
  (Header.scan_pattern_range src first last r pred proj1 proj2
   = Some (first + length r) <->
   prefix_matches src r pred proj1 proj2 first last 0 (length r)).
Proof.
  intros Hsrc. unfold Header.scan_pattern_range, begin, end_.
  rewrite (scan_pattern_eq src r pred proj1 proj2 first last 0 (length r)
             Hsrc (valid_range_whole r)).
  rewrite Nat.sub_0_r.
  destruct (prefix_matchesb src r pred proj1 proj2 first last 0 (length r))
    eqn:Hb.
  - apply prefix_matchesb_iff in Hb. tauto.
  - split.
    + intros Heq. injection Heq. intros Hlen.
      split; [lia|]. intros k Hk. lia.
    + intros Hm. apply prefix_matchesb_iff in Hm. congruence.
Qed.

(** X15.  Scanning a concatenated pattern is scanning its two parts in a
    row: on a valid range [scan] advances over the whole of [p ++ q] exactly
    when it advances over the whole of [p] and then, from the position
    reached, over the whole of [q]. *)
Theorem scan_pattern_concat
  {A B V1 V2 : Type} (src : list A) (p q : list B) (first last : nat)
  (pred : V1 -> V2 -> bool) (proj1 : A -> V1) (proj2 : B -> V2) :
  valid_range src first last ->
  (Header.scan_pattern_range src first last (p ++ q) pred proj1 proj2
   = Some (first + length (p ++ q)) <->
   Header.scan_pattern_range src first last p pred proj1 proj2
   = Some (first + length p) /\
   Header.scan_pattern_range src (first + length p) last q pred proj1 proj2
   = Some (first + length p + length q)).
Proof.
  intros Hsrc.
  rewrite (scan_pattern_range_full_iff src (p ++ q) first last
             pred proj1 proj2 Hsrc).
  rewrite (scan_pattern_range_full_iff src p first last
             pred proj1 proj2 Hsrc).
  rewrite prefix_matches_app.
  split.
  - intros [Hp Hq]. split; [exact Hp|].
    apply scan_pattern_range_full_iff; [|exact Hq].
    destruct Hsrc as [Hle Hlen], Hp as [HN _]. split; lia.
  - intros [Hp Hq]. split; [exact Hp|].
    apply scan_pattern_range_full_iff in Hq; [exact Hq|].
    destruct Hsrc as [Hle Hlen], Hp as [HN _]. split; lia.
Qed.

Lemma scan_pattern_concat_witness :
  valid_range source 0 13 /\
  Header.scan_pattern_range source 0 13 (chars "Hel" ++ chars "lo")
                            equal_to identity identity
  = Some (0 + length (chars "Hel" ++ chars "lo")).
Proof.
  assert (Hs : valid_range source 0 13) by (split; simpl; lia).
  split; [exact Hs|].
  apply (scan_pattern_concat source (chars "Hel") (chars "lo") 0 13
           equal_to identity identity Hs).
  split; reflexivity.
Defined.

(** ** The operations that can leave the range, on a source with an element *)

(** X16.  The two operations that step past the end marker of an empty
    source stay inside a source that has an element: on a valid range with
    the cursor not at the end marker, the pattern form of [scan_not] and
    [scan_excluding] (over any scanner with a result there) return the
    cursor or the cursor plus one, and never a position past the end
    marker. *)
Theorem negated_forms_within_nonempty_range
  {A B V1 V2 : Type} (src : list A) (pat : list B)
  (first last first2 last2 : nat)
  (pred : V1 -> V2 -> bool) (proj1 : A -> V1) (proj2 : B -> V2)
  (scanner : Scanner) (r : nat) :
  valid_range src first last ->
  valid_range pat first2 last2 ->
  first <> last ->
  scanner first last = Some r ->
  exists p p',
    Header.scan_not_pattern src pat first last first2 last2
                            pred proj1 proj2 = Some p /\
    ModuleUnit.scan_excluding first last scanner = Some p' /\
    (p = first \/ p = first + 1) /\ (p' = first \/ p' = first + 1) /\
    p <= last /\ p' <= last.
Proof.
  intros Hsrc Hpat NE Hr.
  rewrite (scan_not_pattern_eq src pat pred proj1 proj2
             first last first2 last2 Hsrc Hpat).
  destruct Hsrc as [Hle Hlen].
  destruct (scan_excluding_cases first last scanner r Hr) as [[_ H]|[_ H]];
    rewrite H;
    destruct (prefix_matchesb src pat pred proj1 proj2
                              first last first2 last2);
    eexists; eexists;
    (split; [reflexivity|]); (split; [reflexivity|]);
    repeat split; auto; lia.
Qed.

Lemma negated_forms_within_nonempty_range_witness :
  valid_range source 0 13 /\ valid_range bye 0 3 /\ 0 <> 13 /\
  begins_with source bye 0 13 = Some 0 /\
  exists p p',
    Header.scan_not_pattern source bye 0 13 0 3 equal_to identity identity
    = Some p /\
    ModuleUnit.scan_excluding 0 13 (begins_with source bye) = Some p' /\
    p <= 13 /\ p' <= 13.
Proof.
  assert (Hs : valid_range source 0 13) by (split; simpl; lia).
  assert (Hp : valid_range bye 0 3) by (split; simpl; lia).
  assert (Hne : 0 <> 13) by lia.
  split; [exact Hs|]. split; [exact Hp|]. split; [exact Hne|].
  split; [reflexivity|].
  destruct (negated_forms_within_nonempty_range source bye 0 13 0 3
              equal_to identity identity (begins_with source bye) 0
              Hs Hp Hne eq_refl)
    as (p & p' & H1 & H2 & _ & _ & Hb & Hb').
  exists p, p'. auto.
Defined.

(** X17.  [scan_while_excluding] advances exactly as long as
    [scan_excluding] would, except that it also stops at the end marker: at
    every position it passes [scan_excluding] returns the next position, and
    where it stops before the end marker [scan_excluding] returns the
    position unchanged. *)
Theorem scan_while_excluding_iterates_scan_excluding
  (first last stop : nat) (scanner : Scanner) :
  first <= last ->
  scanner_defined scanner first last ->
  ModuleUnit.scan_while_excluding (S (last - first)) first last scanner
  = Some stop ->
  (forall p, first <= p < stop ->
     ModuleUnit.scan_excluding p last scanner = Some (p + 1)) /\
  (stop <> last ->
   ModuleUnit.scan_excluding stop last scanner = Some stop).
Proof.
  intros Hle Hdef Hres.
  destruct (scan_while_excluding_spec last scanner (last - first) first
              eq_refl Hle Hdef) as (stop0 & Hrun & Hb & Hno & Hstop).
  rewrite (Hrun (S (last - first))) in Hres by lia.
  injection Hres as ->. split.
  - intros p Hp. specialize (Hno p Hp). unfold no_advance_at in Hno.
    destruct (scan_excluding_cases p last scanner p Hno) as [[_ H]|[NE _]];
      [exact H | contradiction].
  - intros NE. destruct Hstop as [E|(r & Hr & Hne)]; [contradiction|].
    destruct (scan_excluding_cases stop last scanner r Hr) as [[E _]|[_ H]];
      [contradiction | exact H].
Qed.

Lemma scan_while_excluding_iterates_scan_excluding_witness :
  0 <= 13 /\
  scanner_defined (begins_with source (chars "world")) 0 13 /\
  ModuleUnit.scan_while_excluding (S (13 - 0)) 0 13
    (begins_with source (chars "world")) = Some 7 /\
  ModuleUnit.scan_excluding 7 13 (begins_with source (chars "world"))
  = Some 7.
Proof.
  assert (Hdef : scanner_defined (begins_with source (chars "world")) 0 13).
  { intros p Hp.
    do 13 (destruct p as [|p]; [eexists; reflexivity|]). lia. }
  split; [lia|]. split; [exact Hdef|]. split; [reflexivity|].
  destruct (scan_while_excluding_iterates_scan_excluding 0 13 7
              (begins_with source (chars "world"))
              (Nat.le_0_l 13) Hdef eq_refl) as [_ Hstop].
  apply Hstop. lia.
Defined.

(** ** Projections *)

Lemma deref_map {A V : Type} (f : A -> V) (buf : list A) (it : nat) :
  deref (map f buf) it = option_map f (deref buf it).
Proof.
  unfold deref. apply nth_error_map.
Qed.

Lemma mismatch_loop_map
  {A B V1 V2 : Type} (src : list A) (pat : list B)
  (pred : V1 -> V2 -> bool) (proj1 : A -> V1) (proj2 : B -> V2)
  (fuel : nat) :
  forall first1 last1 first2 last2,
    mismatch_loop (map proj1 src) (map proj2 pat) fuel
                  first1 last1 first2 last2 pred identity identity
    = mismatch_loop src pat fuel first1 last1 first2 last2
                    pred proj1 proj2.
Proof.
  induction fuel as [|fuel IH]; intros f1 l1 f2 l2; simpl; [reflexivity|].
  rewrite !deref_map.
  destruct (negb (f1 =? l1) && negb (f2 =? l2)); [|reflexivity].
  destruct (deref src f1) as [x|]; simpl; [|reflexivity].
  destruct (deref pat f2) as [y|]; simpl; [|reflexivity].
  unfold identity at 1 2. rewrite IH. reflexivity.
Qed.

(** X18.  A projection is a map over the sequence: every operation gives the
    same result on a source with projection [proj] as on the projected
    source [map proj src] with the identity projection, and for the pattern
    forms likewise on both sides. *)
Theorem projection_is_map
  {A B T V V1 V2 : Type} (src : list A) (pat : list B)
  (first last first2 last2 : nat) (value : T)
  (pred : V -> T -> bool) (proj : A -> V) (upred : V -> bool)
  (pred2 : V1 -> V2 -> bool) (proj1 : A -> V1) (proj2 : B -> V2) :
  Header.scan src first last value pred proj
  = Header.scan (map proj src) first last value pred identity /\
  Header.scan_if src first last upred proj
  = Header.scan_if (map proj src) first last upred identity /\
  Header.scan_not src first last value pred proj
  = Header.scan_not (map proj src) first last value pred identity /\
  Header.scan_if_not src first last upred proj
  = Header.scan_if_not (map proj src) first last upred identity /\
  Header.scan_pattern src pat first last first2 last2 pred2 proj1 proj2
  = Header.scan_pattern (map proj1 src) (map proj2 pat)
                        first last first2 last2 pred2 identity identity /\
  Header.scan_not_pattern src pat first last first2 last2 pred2 proj1 proj2
  = Header.scan_not_pattern (map proj1 src) (map proj2 pat)
                            first last first2 last2
                            pred2 identity identity.
Proof.
  unfold Header.scan, Header.scan_if, Header.scan_not, Header.scan_if_not,
    Header.scan_pattern, Header.scan_not_pattern, mismatch.
  rewrite !deref_map, !length_map, !mismatch_loop_map.
  repeat match goal with |- _ /\ _ => split end;
    try reflexivity;
    destruct (first =? last); try reflexivity;
    destruct (deref src first); reflexivity.
Qed.

(** ** The example programs

    Their output, as the reference documentation prints it. *)

Example scan_example_output :
  scan_example = Some (chars "rus").
Proof. reflexivity. Qed.

Example scan_not_example_output :
  scan_not_example = Some (chars "alk").
Proof. reflexivity. Qed.
